(** * Google Drive backup service: a shallow embedding of [app.py]

    The development follows the source file top to bottom: the string
    helpers the code borrows from Python, the file records the Drive API
    hands out, the MIME tables and [get_safe_filename], the paginated
    lister [list_all_files], the fetcher [download_single_file], the
    volume writer [download_to_zips], the job driver [process_download]
    and the retention sweep [cleanup_sessions].  Definitions come first,
    theorems after them. *)

From Stdlib Require Import ZArith NArith List String Ascii Bool Lia.
Import ListNotations.

Local Open Scope string_scope.
Local Open Scope Z_scope.

(* ================================================================= *)
(** ** Python strings

    A Python [str] is modelled as a [string] whose characters are the
    code points below 256. *)

(** [s.replace(old, new)] for one-character [old] and [new]. *)
Fixpoint replace (old new : ascii) (s : string) : string :=
  match s with
  | EmptyString => EmptyString
  | String c rest =>
      String (if Ascii.eqb c old then new else c) (replace old new rest)
  end.

(** [str.lower] on one code point below 256: the capital letters A-Z and
    the capital Latin-1 letters (0xC0-0xDE, the sign 0xD7 apart) move up
    by 32. *)
Definition lower_char (c : ascii) : ascii :=
  let n := N_of_ascii c in
  if ((65 <=? n) && (n <=? 90))%N
     || ((192 <=? n) && (n <=? 222) && negb (n =? 215))%N
  then ascii_of_N (n + 32)
  else c.

Fixpoint lower (s : string) : string :=
  match s with
  | EmptyString => EmptyString
  | String c rest => String (lower_char c) (lower rest)
  end.

(** [s.endswith(suffix)]. *)
Definition endswith (s suffix : string) : bool :=
  let n := String.length s in
  let k := String.length suffix in
  (k <=? n)%nat && String.eqb (substring (n - k) k s) suffix.

(** The decimal digits of a natural number, most significant first; the
    fuel bounds the number of digits. *)
Fixpoint digits_fuel (fuel : nat) (n : N) (acc : string) : string :=
  match fuel with
  | O => acc
  | S fuel' =>
      let acc' := String (ascii_of_N (48 + n mod 10)) acc in
      if (n / 10 =? 0)%N then acc' else digits_fuel fuel' (n / 10) acc'
  end.

Definition str_of_N (n : N) : string :=
  digits_fuel (S (N.to_nat (N.log2 n))) n "".

Fixpoint zeros (k : nat) : string :=
  match k with
  | O => ""
  | S k' => String "0" (zeros k')
  end.

(** The format specification [{n:03d}] on a non-negative integer: decimal,
    padded with zeros on the left up to a width of three. *)
Definition format_03d (n : N) : string :=
  let d := str_of_N n in
  zeros (3 - String.length d) ++ d.

(** Three decimal digits, the hundreds first. *)
Definition three_digits (n : N) : string :=
  String (ascii_of_N (48 + n / 100 mod 10))
    (String (ascii_of_N (48 + n / 10 mod 10))
       (String (ascii_of_N (48 + n mod 10)) "")).

(* ================================================================= *)
(** ** File records

    One entry of [files] as the listing request asks for it
    ([fields="... files(id, name, mimeType, parents, size, capabilities)"]).
    [size] is the integer [int(file['size'])] of the record, [None] when
    the key is missing; [canDownload] is [file['capabilities']['canDownload']],
    [None] when either key is missing. *)

Record FileRecord : Type := mkFile {
  file_id : string;
  name : string;
  mimeType : string;
  size : option Z;
  canDownload : option bool
}.

(* ================================================================= *)
(** ** MIME tables *)

Definition mime_document : string := "application/vnd.google-apps.document".
Definition mime_spreadsheet : string := "application/vnd.google-apps.spreadsheet".
Definition mime_presentation : string := "application/vnd.google-apps.presentation".
Definition mime_drawing : string := "application/vnd.google-apps.drawing".
Definition mime_folder : string := "application/vnd.google-apps.folder".

Definition mime_docx : string :=
  "application/vnd.openxmlformats-officedocument.wordprocessingml.document".
Definition mime_xlsx : string :=
  "application/vnd.openxmlformats-officedocument.spreadsheetml.sheet".
Definition mime_pptx : string :=
  "application/vnd.openxmlformats-officedocument.presentationml.presentation".
Definition mime_pdf : string := "application/pdf".

(** [dict.get(key, default)] on a literal dictionary. *)
Fixpoint dict_get (d : list (string * string)) (key default : string) : string :=
  match d with
  | [] => default
  | (k, v) :: rest => if String.eqb key k then v else dict_get rest key default
  end.

Definition google_apps_types : list string :=
  [mime_document; mime_spreadsheet; mime_presentation; mime_drawing].

Definition is_google_apps_file (mime_type : string) : bool :=
  existsb (String.eqb mime_type) google_apps_types.

Definition formats : list (string * string) :=
  [ (mime_document, mime_docx);
    (mime_spreadsheet, mime_xlsx);
    (mime_presentation, mime_pptx);
    (mime_drawing, mime_pdf) ].

Definition get_export_format (mime_type : string) : string :=
  dict_get formats mime_type mime_pdf.

Definition extensions : list (string * string) :=
  [ (mime_docx, "docx");
    (mime_xlsx, "xlsx");
    (mime_pptx, "pptx");
    (mime_pdf, "pdf") ].

Definition get_file_extension (mime_type : string) : string :=
  dict_get extensions mime_type "pdf".

(* ================================================================= *)
(** ** [get_safe_filename] *)

(** The nine characters of the source's [invalid_chars] literal, in the
    order the loop visits them: less-than, greater-than, colon, double
    quote (code point 34), slash, backslash, bar, question mark, star. *)
Definition invalid_chars : string :=
  "<>:" ++ String "034"%char "/\|?*".

(** [for char in invalid_chars: name = name.replace(char, '_')]. *)
Definition remove_invalid (s : string) : string :=
  fold_left (fun acc char => replace char "_"%char acc)
            (list_ascii_of_string invalid_chars) s.

Definition get_safe_filename (file : FileRecord) : string :=
  let name0 := remove_invalid (name file) in
  let mime_type := mimeType file in
  if is_google_apps_file mime_type then
    let extension := get_file_extension (get_export_format mime_type) in
    if negb (endswith (lower name0) ("." ++ extension))
    then name0 ++ "." ++ extension
    else name0
  else name0.

(** What the sanitizer is said to do, character by character. *)
Definition is_invalid_char (c : ascii) : bool :=
  existsb (Ascii.eqb c) (list_ascii_of_string invalid_chars).

Fixpoint string_map (f : ascii -> ascii) (s : string) : string :=
  match s with
  | EmptyString => EmptyString
  | String c rest => String (f c) (string_map f rest)
  end.

Fixpoint string_forallb (p : ascii -> bool) (s : string) : bool :=
  match s with
  | EmptyString => true
  | String c rest => p c && string_forallb p rest
  end.

Definition underscore_invalid (c : ascii) : ascii :=
  if is_invalid_char c then "_"%char else c.

(** The sanitizer as the specification words it: every illegal character
    becomes an underscore, and a native document gets the extension of its
    export format unless its name already ends with it, whatever the case
    of the letters. *)
Definition export_extension_of (mime_type : string) : option string :=
  if String.eqb mime_type mime_document then Some "docx"
  else if String.eqb mime_type mime_spreadsheet then Some "xlsx"
  else if String.eqb mime_type mime_presentation then Some "pptx"
  else if String.eqb mime_type mime_drawing then Some "pdf"
  else None.

Definition sanitize_spec (file : FileRecord) : string :=
  let clean := string_map underscore_invalid (name file) in
  match export_extension_of (mimeType file) with
  | Some ext =>
      if endswith (lower (name file)) ("." ++ ext) then clean
      else clean ++ "." ++ ext
  | None => clean
  end.

(** The characters of the four extensions and the dot. *)
Definition extension_chars : list ascii :=
  list_ascii_of_string ".docxlsptf".

(** A name free of illegal characters. *)
Definition legal_name (s : string) : bool :=
  string_forallb (fun c => negb (is_invalid_char c)) s.


(* ================================================================= *)
(** ** Python values the pipeline handles *)

Definition bytes : Type := list Byte.byte.

(** [len(b)] as a Python integer. *)
Definition len (b : bytes) : Z := Z.of_nat (List.length b).

(** Truth values of the objects the code tests with [if], [not] and [or]. *)
Definition truthy_str (s : option string) : bool :=
  match s with
  | None => false
  | Some s => negb (String.eqb s "")
  end.

Definition truthy_bytes (b : option bytes) : bool :=
  match b with
  | None => false
  | Some [] => false
  | Some (_ :: _) => true
  end.

(** [a or b] on integers. *)
Definition int_or (a b : Z) : Z := if a =? 0 then b else a.

(** [d.get(key, default)] on an optional field. *)
Definition get {A : Type} (field : option A) (default : A) : A :=
  match field with
  | Some v => v
  | None => default
  end.

(** [os.path.join(a, b)] on a POSIX system. *)
Definition starts_with_slash (s : string) : bool :=
  match s with
  | String c _ => Ascii.eqb c "/"%char
  | EmptyString => false
  end.

Definition path_join (a b : string) : string :=
  if starts_with_slash b then b
  else if String.eqb a "" || endswith a "/" then a ++ b
  else a ++ "/" ++ b.

(* ================================================================= *)
(** ** Exceptions and results

    [HttpError] is [googleapiclient.errors.HttpError] with the status of
    its response and its text; [Exception] stands for every other
    subclass of Python's [Exception].  A computation returns, raises, or
    is [Blocked]: it waits for an answer of the provider that the scripted
    provider does not hold. *)

Inductive Exn : Type :=
| HttpError (status : Z) (text : string)
| Exception (text : string).

Definition str (e : Exn) : string :=
  match e with
  | HttpError _ text => text
  | Exception text => text
  end.

Inductive Result (A : Type) : Type :=
| Return (a : A)
| Raise (e : Exn)
| Blocked.

Arguments Return {A} a.
Arguments Raise {A} e.
Arguments Blocked {A}.

(* ================================================================= *)
(** ** The Drive service

    The listing endpoint is a script: the answers of the successive
    [files().list(...).execute()] calls.  A media request is answered by
    a download, the outcomes of the successive [next_chunk()] calls, which
    ends with a last chunk or with an exception. *)

Record ListRequest : Type := mkListRequest {
  pageSize : Z;
  fields : string;
  pageToken : option string;
  q : string
}.

(** One answer of the listing endpoint; a field is [None] when the key is
    missing from the answer. *)
Record Page : Type := mkPage {
  files : option (list FileRecord);
  nextPageToken : option string
}.

Inductive MediaRequest : Type :=
| export_media (fileId : string) (mimeType : string)
| get_media (fileId : string).

(** What one [execute()] of a listing request comes back with. *)
Inductive Answer : Type :=
| Answers (results : Page)
| ExecuteFails (e : Exn).

Inductive Download : Type :=
| Chunk (data : bytes) (rest : Download)
| LastChunk (data : bytes)
| ChunkFails (e : Exn).

(** Everything the pipeline asks of its surroundings: the refresh of the
    credential, the construction of the Drive service, the service itself, and the outcome of the file-system calls ([None]: the
    call succeeds; [Some e]: it raises [e]). *)
Record Env : Type := mkEnv {
  token_refresh : option Exn;
  build : option Exn;
  list_script : list Answer;
  media : MediaRequest -> Download;
  makedirs : string -> option Exn;
  zipfile_open : string -> option Exn;
  zipfile_writestr : string -> string -> bytes -> option Exn;
  zipfile_close : string -> option Exn
}.

(* ================================================================= *)
(** ** Sessions, progress and the state of a job *)

Inductive Status : Type :=
| Idle | Authenticated | Starting | Initializing
| ListingFiles | Downloading | Completed | Error.

(** [session.progress], the dictionary the poller reads. *)
Record Progress : Type := mkProgress {
  total_files : Z;
  processed_files : Z;
  current_file : string;
  status : Status;
  zip_files : list string;
  error : string
}.

(** A [zipfile.ZipFile] object opened for writing: its path, the entries
    written with [writestr], and whether its file handle is still open. *)
Record ZipFile : Type := mkZip {
  zip_path : string;
  entries : list (string * bytes);
  fp_open : bool
}.

(** The local variables of [download_to_zips]; [zip_writer] refers to an
    object of the store by its position. *)
Record Locals : Type := mkLocals {
  zip_index : N;
  current_zip_size : Z;
  zip_writer : option nat
}.

(** [google.oauth2.credentials.Credentials], as far as the code looks at
    it. *)
Record Credentials : Type := mkCredentials {
  expired : bool
}.

(** [UserSession]; [created_at] is [datetime.now()] at construction, in
    microseconds. *)
Record UserSession : Type := mkSession {
  token : option Credentials;
  state : string;
  job_id : string;
  created_at : Z;
  progress : Progress
}.

(** The state one job runs in: its session, the [ZipFile] objects created
    so far, the directories made, the local variables of the writer, and
    the requests sent to the provider. *)
Record World : Type := mkWorld {
  session : UserSession;
  zips : list ZipFile;
  dirs : list string;
  vars : Locals;
  list_log : list ListRequest;
  media_log : list MediaRequest
}.

(** What the poller reads. *)
Definition snapshot (w : World) : Progress := progress (session w).

(* ================================================================= *)
(** ** The monad of state and exceptions

    State survives an exception, as Python's does. *)

Definition M (A : Type) : Type := World -> Result A * World.

Definition ret {A : Type} (a : A) : M A := fun w => (Return a, w).

Definition bind {A B : Type} (m : M A) (k : A -> M B) : M B :=
  fun w =>
    match m w with
    | (Return a, w') => k a w'
    | (Raise e, w') => (Raise e, w')
    | (Blocked, w') => (Blocked, w')
    end.

Definition raise {A : Type} (e : Exn) : M A := fun w => (Raise e, w).

Definition modify (f : World -> World) : M unit := fun w => (Return tt, f w).

Definition gets {A : Type} (f : World -> A) : M A := fun w => (Return (f w), w).

(** [try: body  except Exception as e: handler(e)]. *)
Definition try_except {A : Type} (body : M A) (handler : Exn -> M A) : M A :=
  fun w =>
    match body w with
    | (Raise e, w') => handler e w'
    | other => other
    end.

(** [try: body  finally: final]. *)
Definition try_finally {A : Type} (body : M A) (final : M unit) : M A :=
  fun w =>
    match body w with
    | (Blocked, w') => (Blocked, w')
    | (r, w') =>
        match final w' with
        | (Return _, w'') => (r, w'')
        | (Raise e, w'') => (Raise e, w'')
        | (Blocked, w'') => (Blocked, w'')
        end
    end.

(** A call that raises when its oracle says so. *)
Definition call (outcome : option Exn) : M unit :=
  match outcome with
  | Some e => raise e
  | None => ret tt
  end.

Declare Scope py_scope.
Delimit Scope py_scope with py.
Notation "x <- m ;; k" := (bind m (fun x => k))
  (at level 100, m at next level, right associativity) : py_scope.
Notation "m ;; k" := (bind m (fun _ => k))
  (at level 100, right associativity) : py_scope.
Local Open Scope py_scope.

(** The request [list_all_files] sends for a page. *)
Definition list_request (page_token : option string) : ListRequest :=
  mkListRequest 1000
    "nextPageToken, files(id, name, mimeType, parents, size, capabilities)"
    page_token "trashed=false".

(** Assignments to the fields of the state. *)
Definition with_session (f : UserSession -> UserSession) (w : World) : World :=
  mkWorld (f (session w)) (zips w) (dirs w) (vars w) (list_log w) (media_log w).

Definition with_progress (f : Progress -> Progress) (w : World) : World :=
  with_session (fun s =>
    mkSession (token s) (state s) (job_id s) (created_at s) (f (progress s))) w.

Definition with_vars (f : Locals -> Locals) (w : World) : World :=
  mkWorld (session w) (zips w) (dirs w) (f (vars w)) (list_log w) (media_log w).

Definition with_zips (f : list ZipFile -> list ZipFile) (w : World) : World :=
  mkWorld (session w) (f (zips w)) (dirs w) (vars w) (list_log w) (media_log w).

Definition with_list_requests (w : World) (tokens : list (option string))
    : World :=
  mkWorld (session w) (zips w) (dirs w) (vars w)
          (list_log w ++ map list_request tokens)%list (media_log w).

Definition with_media_request (w : World) (r : MediaRequest) : World :=
  mkWorld (session w) (zips w) (dirs w) (vars w)
          (list_log w) (media_log w ++ [r])%list.

Definition with_dir (d : string) (w : World) : World :=
  mkWorld (session w) (zips w) (d :: dirs w) (vars w) (list_log w) (media_log w).

Definition set_progress (f : Progress -> Progress) : M unit :=
  modify (with_progress f).

Definition set_token (c : Credentials) : M unit :=
  modify (with_session (fun s =>
    mkSession (Some c) (state s) (job_id s) (created_at s) (progress s))).

Definition set_total_files (n : Z) : M unit :=
  set_progress (fun p =>
    mkProgress n (processed_files p) (current_file p) (status p)
               (zip_files p) (error p)).

Definition set_processed_files (n : Z) : M unit :=
  set_progress (fun p =>
    mkProgress (total_files p) n (current_file p) (status p)
               (zip_files p) (error p)).

Definition set_current_file (s : string) : M unit :=
  set_progress (fun p =>
    mkProgress (total_files p) (processed_files p) s (status p)
               (zip_files p) (error p)).

Definition set_status (s : Status) : M unit :=
  set_progress (fun p =>
    mkProgress (total_files p) (processed_files p) (current_file p) s
               (zip_files p) (error p)).

Definition append_zip_file (zip_filename : string) : M unit :=
  set_progress (fun p =>
    mkProgress (total_files p) (processed_files p) (current_file p) (status p)
               (zip_files p ++ [zip_filename])%list (error p)).

Definition set_error (s : string) : M unit :=
  set_progress (fun p =>
    mkProgress (total_files p) (processed_files p) (current_file p) (status p)
               (zip_files p) s).

Definition set_vars (f : Locals -> Locals) : M unit := modify (with_vars f).

Definition set_zips (f : list ZipFile -> list ZipFile) : M unit :=
  modify (with_zips f).

Definition log_list_request (page_token : option string) : M unit :=
  modify (fun w => with_list_requests w [page_token]).

Definition log_media_request (r : MediaRequest) : M unit :=
  modify (fun w => with_media_request w r).

Definition add_dir (d : string) : M unit := modify (with_dir d).

(* ================================================================= *)
(** ** [list_all_files] *)

(** The [while True] loop, one answer of the script per turn.  An
    [HttpError] is raised again as
    [Exception(f"Failed to list files: {e}")]; any other exception passes
    through the [except HttpError] clause. *)
Fixpoint list_loop (script : list Answer) (page_token : option string)
    (acc : list FileRecord) : M (list FileRecord) :=
  match script with
  | [] => fun w => (Blocked, w)
  | answer :: script' =>
      log_list_request page_token ;;
      match answer with
      | Answers results =>
          let items := get (files results) [] in
          let acc' := (acc ++ items)%list in
          let page_token' := nextPageToken results in
          if negb (truthy_str page_token') then ret acc'
          else list_loop script' page_token' acc'
      | ExecuteFails (HttpError status text) =>
          raise (Exception ("Failed to list files: " ++ text))
      | ExecuteFails e => raise e
      end
  end.

Definition list_all_files (env : Env) : M (list FileRecord) :=
  list_loop (list_script env) None [].

(** The words of the specification about the lister: a page carries a
    continuation token or not, a page's records, the requests a run of the
    loop adds to the log, and the exception a failed request ends in. *)
Definition has_token (p : Page) : bool := truthy_str (nextPageToken p).

Definition page_files (p : Page) : list FileRecord := get (files p) [].

Definition listing_error (e : Exn) : Exn :=
  match e with
  | HttpError _ text => Exception ("Failed to list files: " ++ text)
  | Exception _ => e
  end.

(* ================================================================= *)
(** ** [download_single_file] *)

(** [while done is False: status, done = downloader.next_chunk()], the
    chunks gathered in [file_io]. *)
Fixpoint next_chunks (d : Download) (file_io : bytes) : Result bytes :=
  match d with
  | Chunk data rest => next_chunks rest (file_io ++ data)%list
  | LastChunk data => Return (file_io ++ data)%list
  | ChunkFails e => Raise e
  end.

Definition media_request (file : FileRecord) : MediaRequest :=
  let mime_type := mimeType file in
  if is_google_apps_file mime_type
  then export_media (file_id file) (get_export_format mime_type)
  else get_media (file_id file).

Definition download_single_file (env : Env) (file : FileRecord)
    : M (option bytes) :=
  let request := media_request file in
  log_media_request request ;;
  match next_chunks (media env request) [] with
  | Return content => ret (Some content)
  | Raise (HttpError status text) =>
      if (status =? 403) || (status =? 404) then ret None
      else raise (HttpError status text)
  | Raise e => raise e
  | Blocked => fun w => (Blocked, w)
  end.

(** The words of the specification about the fetcher: what the provider
    reports for a download, an error or the whole content, and which
    errors mean that the file is inaccessible or not found. *)
Fixpoint reported_error (d : Download) : option Exn :=
  match d with
  | Chunk _ rest => reported_error rest
  | LastChunk _ => None
  | ChunkFails e => Some e
  end.

Fixpoint whole_content (d : Download) : bytes :=
  match d with
  | Chunk data rest => (data ++ whole_content rest)%list
  | LastChunk data => data
  | ChunkFails _ => []
  end.

Definition not_found_or_forbidden (e : Exn) : bool :=
  match e with
  | HttpError status _ => (status =? 403) || (status =? 404)
  | Exception _ => false
  end.

(* ================================================================= *)
(** ** [zipfile.ZipFile] *)

(** [zipfile.ZipFile(zip_path, 'w', zipfile.ZIP_DEFLATED, compresslevel=6)]:
    a new object in the store, returned by its position. *)
Definition ZipFile_new (env : Env) (path : string) : M nat :=
  call (zipfile_open env path) ;;
  h <- gets (fun w => List.length (zips w)) ;;
  set_zips (fun zs => (zs ++ [mkZip path [] true])%list) ;;
  ret h.

Fixpoint update_nth {A : Type} (n : nat) (f : A -> A) (l : list A) : list A :=
  match l, n with
  | [], _ => []
  | x :: l', O => f x :: l'
  | x :: l', S n' => x :: update_nth n' f l'
  end.

Definition close_zip (z : ZipFile) : ZipFile :=
  mkZip (zip_path z) (entries z) false.

Definition add_entry (filename : string) (data : bytes) (z : ZipFile) : ZipFile :=
  mkZip (zip_path z) (entries z ++ [(filename, data)])%list (fp_open z).

(** [zip_writer.close()]: nothing on an object already closed; otherwise
    the handle is released, also when writing the archive's end fails. *)
Definition ZipFile_close (env : Env) (h : nat) : M unit :=
  z <- gets (fun w => nth_error (zips w) h) ;;
  match z with
  | Some z =>
      if fp_open z then
        set_zips (update_nth h close_zip) ;;
        call (zipfile_close env (zip_path z))
      else ret tt
  | None => ret tt
  end.

(** [zip_writer.writestr(filename, data)]: one more entry, unless the
    call raises. *)
Definition ZipFile_writestr (env : Env) (h : nat) (filename : string)
    (data : bytes) : M unit :=
  z <- gets (fun w => nth_error (zips w) h) ;;
  match z with
  | Some z =>
      if fp_open z then
        call (zipfile_writestr env (zip_path z) filename data) ;;
        set_zips (update_nth h (add_entry filename data))
      else raise (Exception "Attempt to write to ZIP archive that was already closed")
  | None => raise (Exception "no such ZipFile")
  end.

(* ================================================================= *)
(** ** [download_to_zips] *)

Definition max_zip_size : Z := 2 * 1024 * 1024 * 1024.

Definition zip_filename_of (zip_index : N) : string :=
  "drive_backup_" ++ format_03d zip_index ++ ".zip".

(** [int(file.get('size', 0)) or 1024]. *)
Definition file_size_of (file : FileRecord) : Z :=
  int_or (get (size file) 0) 1024.

(** The test that starts a new archive. *)
Definition needs_new_zip (l : Locals) (file_size : Z) : bool :=
  match zip_writer l with
  | None => true
  | Some _ => current_zip_size l + file_size >? max_zip_size
  end.

(** The block under [# Start new zip if needed]. *)
Definition start_new_zip (env : Env) (job_dir : string) : M unit :=
  l <- gets vars ;;
  match zip_writer l with
  | Some h => ZipFile_close env h
  | None => ret tt
  end ;;
  let zip_filename := zip_filename_of (zip_index l) in
  let zip_path := path_join job_dir zip_filename in
  h <- ZipFile_new env zip_path ;;
  set_vars (fun l => mkLocals (zip_index l) (current_zip_size l) (Some h)) ;;
  set_vars (fun l => mkLocals (zip_index l) 0 (zip_writer l)) ;;
  set_vars (fun l => mkLocals (zip_index l + 1) (current_zip_size l) (zip_writer l)) ;;
  append_zip_file zip_filename.

(** The inner [try] block: fetch, and write what was fetched. *)
Definition fetch_and_write (env : Env) (file : FileRecord) : M unit :=
  file_content <- download_single_file env file ;;
  if truthy_bytes file_content then
    let content := get file_content [] in
    let filename := get_safe_filename file in
    l <- gets vars ;;
    match zip_writer l with
    | Some h => ZipFile_writestr env h filename content
    | None => raise (Exception "'NoneType' object has no attribute 'writestr'")
    end ;;
    set_vars (fun l =>
      mkLocals (zip_index l) (current_zip_size l + len content) (zip_writer l))
  else ret tt.

(** One turn of [for i, file in enumerate(files)]. *)
Definition loop_body (env : Env) (job_dir : string) (i : Z) (file : FileRecord)
    : M unit :=
  if negb (get (canDownload file) true) then
    set_processed_files (i + 1)
  else
    let file_size := file_size_of file in
    l <- gets vars ;;
    (if needs_new_zip l file_size then start_new_zip env job_dir else ret tt) ;;
    set_current_file (name file) ;;
    set_processed_files (i + 1) ;;
    try_except (fetch_and_write env file) (fun _ => ret tt).

Fixpoint for_files (env : Env) (job_dir : string) (i : Z)
    (files : list FileRecord) : M unit :=
  match files with
  | [] => ret tt
  | file :: rest =>
      loop_body env job_dir i file ;;
      for_files env job_dir (i + 1) rest
  end.

(** The [finally] clause. *)
Definition close_last_zip (env : Env) : M unit :=
  l <- gets vars ;;
  match zip_writer l with
  | Some h => ZipFile_close env h
  | None => ret tt
  end.

Definition download_to_zips (env : Env) (files : list FileRecord) : M unit :=
  set_vars (fun _ => mkLocals 1 0 None) ;;
  job_dir <- gets (fun w => path_join "downloads" (job_id (session w))) ;;
  call (makedirs env job_dir) ;;
  add_dir job_dir ;;
  try_finally (for_files env job_dir 0 files) (close_last_zip env).

(** The states the writer moves through, in the words of the
    specification: the current volume closed, the next volume opened, an
    entry written to the open volume, a record marked as processed. *)
Definition close_writer (w : World) : World :=
  match zip_writer (vars w) with
  | Some h => with_zips (update_nth h close_zip) w
  | None => w
  end.

Definition open_zip (job_dir : string) (w : World) : World :=
  let zip_filename := zip_filename_of (zip_index (vars w)) in
  with_progress
    (fun p =>
       mkProgress (total_files p) (processed_files p) (current_file p)
                  (status p) (zip_files p ++ [zip_filename])%list (error p))
    (with_vars
       (fun l => mkLocals (zip_index l + 1) 0 (Some (List.length (zips w))))
       (with_zips
          (fun zs => (zs ++ [mkZip (path_join job_dir zip_filename) [] true])%list)
          w)).

Definition write_entry (h : nat) (filename : string) (content : bytes)
    (w : World) : World :=
  with_vars
    (fun l => mkLocals (zip_index l) (current_zip_size l + len content)
                       (zip_writer l))
    (with_zips (update_nth h (add_entry filename content)) w).

Definition mark_processed (i : Z) (w : World) : World :=
  with_progress
    (fun p =>
       mkProgress (total_files p) (i + 1) (current_file p) (status p)
                  (zip_files p) (error p)) w.

Definition mark_current (file : FileRecord) (w : World) : World :=
  with_progress
    (fun p =>
       mkProgress (total_files p) (processed_files p) (name file) (status p)
                  (zip_files p) (error p)) w.

(** The exception closing the current volume ends in, if any. *)
Definition close_error (env : Env) (w : World) : option Exn :=
  match zip_writer (vars w) with
  | Some h =>
      match nth_error (zips w) h with
      | Some z => if fp_open z then zipfile_close env (zip_path z) else None
      | None => None
      end
  | None => None
  end.

(** The state after the inner [try] block, whatever happened in it: the
    request is logged, and the content is an entry of the open volume when
    the download completed with a content that is not empty and the write
    did not fail. *)
Definition after_fetch (env : Env) (file : FileRecord) (w : World) : World :=
  let d := media env (media_request file) in
  let w1 := with_media_request w (media_request file) in
  match reported_error d, whole_content d with
  | Some _, _ => w1
  | None, [] => w1
  | None, content =>
      match zip_writer (vars w) with
      | Some h =>
          match nth_error (zips w) h with
          | Some z =>
              if fp_open z then
                match zipfile_writestr env (zip_path z) (get_safe_filename file)
                                       content with
                | Some _ => w1
                | None => write_entry h (get_safe_filename file) content w1
                end
              else w1
          | None => w1
          end
      | None => w1
      end
  end.

(** The names of [n] archives, numbered from [first]. *)
Definition zip_names_from (first : N) (n : nat) : list string :=
  map (fun k => zip_filename_of (first + N.of_nat k)) (seq 0 n).

(** The archives a computation has started, as the state shows them:
    [n] more names in the progress, numbered from the index it began
    with, and the index moved on by [n]. *)
Definition started_zips (n : nat) (w w' : World) : Prop :=
  zip_index (vars w') = (zip_index (vars w) + N.of_nat n)%N
  /\ zip_files (snapshot w')
     = (zip_files (snapshot w) ++ zip_names_from (zip_index (vars w)) n)%list
  /\ List.length (zips w') = (List.length (zips w) + n)%nat.

(** A record the loop does not skip. *)
Definition downloadable (file : FileRecord) : bool :=
  get (canDownload file) true.

(** Every archive is closed. *)
Definition all_closed (w : World) : Prop :=
  forall z, In z (zips w) -> fp_open z = false.

(** An open archive is the one [zip_writer] refers to. *)
Definition only_writer_open (w : World) : Prop :=
  forall k z, nth_error (zips w) k = Some z -> fp_open z = true ->
              zip_writer (vars w) = Some k.

(** The entries of all archives, in the order of the archives. *)
Definition all_entries (w : World) : list (string * bytes) :=
  List.concat (map entries (zips w)).

(** *** What the state says about the archives *)

(** Reading a decimal numeral back: the value of the digits of [s] after
    the value [acc] of the digits before them. *)
Fixpoint value_of_digits (s : string) (acc : N) : N :=
  match s with
  | EmptyString => acc
  | String c rest => value_of_digits rest (acc * 10 + (N_of_ascii c - 48))
  end.

(** The index in an archive's name: what stands between the prefix and
    the [.zip] at the end, read as a number. *)
Definition index_of_zip_filename (zip_filename : string) : N :=
  value_of_digits
    (substring 13 (String.length zip_filename - 17) zip_filename) 0.

(** The uncompressed bytes an archive holds. *)
Definition zip_total (z : ZipFile) : Z :=
  fold_right (fun e acc => len (snd e) + acc) 0 (entries z).

(** The running total is the size of the archive [zip_writer] refers to. *)
Definition total_ok (w : World) : Prop :=
  match zip_writer (vars w) with
  | Some h =>
      exists z, nth_error (zips w) h = Some z
                /\ current_zip_size (vars w) = zip_total z
  | None => True
  end.

(** [zip_writer], when set, refers to the last archive created, and that
    archive is open. *)
Definition writer_ready (w : World) : Prop :=
  match zip_writer (vars w) with
  | Some h =>
      S h = List.length (zips w)
      /\ exists z, nth_error (zips w) h = Some z /\ fp_open z = true
  | None => True
  end.

(** An archive under the ceiling, or one that holds at most one file. *)
Definition within_ceiling (z : ZipFile) : Prop :=
  zip_total z <= max_zip_size \/ (List.length (entries z) <= 1)%nat.

(** A download that completed with a content that is not empty. *)
Definition fetched (env : Env) (file : FileRecord) : bool :=
  match reported_error (media env (media_request file)),
        whole_content (media env (media_request file)) with
  | None, _ :: _ => true
  | _, _ => false
  end.

(** The entry a file becomes. *)
Definition entry_of (env : Env) (file : FileRecord) : string * bytes :=
  (get_safe_filename file, whole_content (media env (media_request file))).

(** The names added to the progress are the names of the archives
    created under [job_dir]. *)
Definition mirrored (job_dir : string) (w w' : World) : Prop :=
  exists added,
    zip_files (snapshot w') = (zip_files (snapshot w) ++ added)%list
    /\ map zip_path (zips w')
       = (map zip_path (zips w) ++ map (path_join job_dir) added)%list.

(** The fields of the session that the download loop leaves alone. *)
Definition same_report (w w' : World) : Prop :=
  status (snapshot w') = status (snapshot w)
  /\ error (snapshot w') = error (snapshot w)
  /\ token (session w') = token (session w)
  /\ job_id (session w') = job_id (session w)
  /\ created_at (session w') = created_at (session w)
  /\ list_log w' = list_log w.

(* ================================================================= *)
(** ** [process_download] *)

Definition is_folder (f : FileRecord) : bool :=
  String.eqb (mimeType f) mime_folder.

Definition process_download (env : Env) : M unit :=
  try_except
    (set_status Initializing ;;
     tok <- gets (fun w => token (session w)) ;;
     match tok with
     | Some c =>
         if expired c
         then call (token_refresh env) ;; set_token (mkCredentials false)
         else ret tt
     | None => raise (Exception "'NoneType' object has no attribute 'expired'")
     end ;;
     call (build env) ;;
     set_status ListingFiles ;;
     files <- list_all_files env ;;
     let downloadable_files := filter (fun f => negb (is_folder f)) files in
     set_total_files (Z.of_nat (List.length downloadable_files)) ;;
     set_status Downloading ;;
     download_to_zips env downloadable_files ;;
     set_status Completed)
    (fun e => set_status Error ;; set_error (str e)).

(** The phases of [process_download], named: the part before the listing,
    the part after it, and the [except] clause. *)
Definition connect (env : Env) : M unit :=
  set_status Initializing ;;
  tok <- gets (fun w => token (session w)) ;;
  match tok with
  | Some c =>
      if expired c
      then call (token_refresh env) ;; set_token (mkCredentials false)
      else ret tt
  | None => raise (Exception "'NoneType' object has no attribute 'expired'")
  end ;;
  call (build env) ;;
  set_status ListingFiles.

Definition download_phase (env : Env) (files : list FileRecord) : M unit :=
  let downloadable_files := filter (fun f => negb (is_folder f)) files in
  set_total_files (Z.of_nat (List.length downloadable_files)) ;;
  set_status Downloading ;;
  download_to_zips env downloadable_files ;;
  set_status Completed.

Definition report_error (e : Exn) : M unit :=
  set_status Error ;; set_error (str e).

(** Two states that differ at most in the status, the error text and the
    credential of the session. *)
Definition same_job (w w' : World) : Prop :=
  job_id (session w') = job_id (session w)
  /\ total_files (snapshot w') = total_files (snapshot w)
  /\ processed_files (snapshot w') = processed_files (snapshot w)
  /\ zip_files (snapshot w') = zip_files (snapshot w)
  /\ zips w' = zips w
  /\ media_log w' = media_log w.

(** The state [start_download] leaves for the background task. *)
Definition starting_progress : Progress :=
  mkProgress 0 0 "" Starting [] "".

Definition initial_world (s : UserSession) : World :=
  mkWorld s [] [] (mkLocals 1 0 None) [] [].


(* ================================================================= *)
(** ** The registry of sessions and [cleanup_sessions]

    [drive_app.sessions] is a dictionary in insertion order; the disk is
    the set of the directories that exist, written without a trailing
    slash.  Time is [datetime.now()] in microseconds. *)

Definition Sessions : Type := list (string * UserSession).

Fixpoint dict_lookup (key : string) (d : Sessions) : option UserSession :=
  match d with
  | [] => None
  | (k, v) :: rest => if String.eqb key k then Some v else dict_lookup key rest
  end.

(** [d[key] = v]: in place when the key is there, at the end otherwise. *)
Fixpoint dict_set (key : string) (v : UserSession) (d : Sessions) : Sessions :=
  match d with
  | [] => [(key, v)]
  | (k, v0) :: rest =>
      if String.eqb key k then (k, v) :: rest else (k, v0) :: dict_set key v rest
  end.

(** [del d[key]]. *)
Definition dict_del (key : string) (d : Sessions) : Sessions :=
  filter (fun kv => negb (String.eqb key (fst kv))) d.

Record Server : Type := mkServer {
  sessions : Sessions;
  disk : list string
}.

(** A path without its trailing slash. *)
Definition strip_slash (p : string) : string :=
  if endswith p "/" then substring 0 (String.length p - 1) p else p.

(** [os.path.exists(p)]. *)
Definition path_exists (d : list string) (p : string) : bool :=
  existsb (String.eqb (strip_slash p)) d.

(** The directory [root] itself or something below it. *)
Definition is_under (root p : string) : bool :=
  String.eqb p root || String.prefix (root ++ "/") p.

(** [shutil.rmtree(p)]. *)
Definition rmtree (d : list string) (p : string) : list string :=
  filter (fun x => negb (is_under (strip_slash p) x)) d.

(** [os.makedirs(job_dir, exist_ok=True)] for a job directory under
    [downloads]. *)
Definition add_path (p : string) (d : list string) : list string :=
  if existsb (String.eqb p) d then d else (d ++ [p])%list.

Definition makedirs_job (job : string) (d : list string) : list string :=
  add_path (strip_slash (path_join "downloads" job)) (add_path "downloads" d).

Definition hours (n : Z) : Z := n * 3600 * 1000000.

(** [drive_app.cleanup_interval], in seconds. *)
Definition cleanup_interval : Z := 3600.

(** [current_time - session.created_at > timedelta(hours=4)]. *)
Definition is_expired (current_time : Z) (s : UserSession) : bool :=
  current_time - created_at s >? hours 4.

Definition expired_sessions (current_time : Z) (srv : Server) : list string :=
  map fst (filter (fun kv => is_expired current_time (snd kv)) (sessions srv)).

Definition job_dir_of (s : UserSession) : string :=
  path_join "downloads" (job_id s).

(** One turn of [for session_id in expired_sessions]. *)
Definition remove_session (srv : Server) (session_id : string) : Server :=
  match dict_lookup session_id (sessions srv) with
  | Some s =>
      let job_dir := job_dir_of s in
      mkServer (dict_del session_id (sessions srv))
               (if path_exists (disk srv) job_dir
                then rmtree (disk srv) job_dir
                else disk srv)
  | None => srv
  end.

(** The body of the [while True] loop of [cleanup_sessions], after the
    sleep, at the time [current_time]. *)
Definition cleanup_tick (current_time : Z) (srv : Server) : Server :=
  fold_left remove_session (expired_sessions current_time srv) srv.

(** The handlers that create a session and start its job, as far as they
    touch the registry; [now] is the clock when the request arrives. *)
Definition new_session (now : Z) : UserSession :=
  mkSession None "" "" now (mkProgress 0 0 "" Idle [] "").

Definition start_login (now : Z) (session_id st : string) (srv : Server)
    : Server :=
  mkServer
    (dict_set session_id
       (mkSession None st "" now (progress (new_session now)))
       (sessions srv))
    (disk srv).

Definition auth_callback (session_id : string) (srv : Server) : Server :=
  match dict_lookup session_id (sessions srv) with
  | Some s =>
      mkServer
        (dict_set session_id
           (mkSession (Some (mkCredentials false)) (state s) (job_id s)
              (created_at s)
              (mkProgress (total_files (progress s))
                 (processed_files (progress s)) (current_file (progress s))
                 Authenticated (zip_files (progress s)) (error (progress s))))
           (sessions srv))
        (disk srv)
  | None => srv
  end.

Definition start_download (session_id job : string) (srv : Server) : Server :=
  match dict_lookup session_id (sessions srv) with
  | Some s =>
      match token s with
      | Some _ =>
          mkServer
            (dict_set session_id
               (mkSession (token s) (state s) job (created_at s)
                          starting_progress)
               (sessions srv))
            (disk srv)
      | None => srv
      end
  | None => srv
  end.

(** What happens to the server, with the clock at that moment. *)
Inductive Event : Type :=
| Login (session_id st : string)
| Callback (session_id : string)
| StartDownload (session_id job : string)
| JobMakedirs (job : string)
| CleanupTick.

Definition handle (now : Z) (ev : Event) (srv : Server) : Server :=
  match ev with
  | Login session_id st => start_login now session_id st srv
  | Callback session_id => auth_callback session_id srv
  | StartDownload session_id job => start_download session_id job srv
  | JobMakedirs job => mkServer (sessions srv) (makedirs_job job (disk srv))
  | CleanupTick => cleanup_tick now srv
  end.

Fixpoint run (timeline : list (Z * Event)) (srv : Server) : Server :=
  match timeline with
  | [] => srv
  | (now, ev) :: rest => run rest (handle now ev srv)
  end.

(** The server after [DriveBackupApp.__init__]. *)
Definition fresh_server : Server := mkServer [] ["downloads"; "templates"].

(** The directory [downloads] is there, or nothing under it is. *)
Definition downloads_sound (d : list string) : Prop :=
  In "downloads" d
  \/ forall p, is_under "downloads" p = true -> ~ In p d.


(* ================================================================= *)
(** ** The HTTP handlers

    A handler is a function of the request, of what the libraries
    answer (the random identifiers of [secrets.token_urlsafe], the clock,
    the outcome of the OAuth calls) and of the server; it gives the
    response, and the server when it changes it. *)

Module Http.

(** [drive_app.client_id] and [drive_app.client_secret], as
    [os.getenv] gives them. *)
Record Config : Type := mkConfig {
  client_id : option string;
  client_secret : option string
}.

(** The cookie [session_id] and the query parameters a request carries. *)
Record Request : Type := mkRequest {
  cookie_session_id : option string;
  param_code : option string;
  param_state : option string;
  param_error : option string
}.

Record Cookie : Type := mkCookie {
  cookie_key : string;
  cookie_value : string;
  max_age : Z;
  httponly : bool;
  samesite : string
}.

Inductive Response : Type :=
| Json_auth_url (auth_url : string) (set_cookie : Cookie)
| Json_job_id (job_id : string)
| Json_progress (p : Progress)
| RedirectResponse (url : string) (status_code : Z)
| TemplateResponse (name : string)
| FileResponse (path filename media_type : string)
| HTTPException (status_code : Z) (detail : string).

(** The status code of a [RedirectResponse] that names none. *)
Definition default_redirect : Z := 307.

(** The session of a request: [None] when
    [not session_id or session_id not in drive_app.sessions]. *)
Definition find_session (r : Request) (srv : Server)
    : option (string * UserSession) :=
  match cookie_session_id r with
  | Some session_id =>
      if negb (truthy_str (Some session_id)) then None
      else match dict_lookup session_id (sessions srv) with
           | Some session => Some (session_id, session)
           | None => None
           end
  | None => None
  end.

(** [start_login]: [session_id] and [state] are the two random tokens,
    [now] the clock, [flow] what [create_flow] and [authorization_url]
    give, the URL or an exception. *)
Definition start_login (cfg : Config) (now : Z) (session_id state : string)
    (flow : Exn + string) (srv : Server) : Response * Server :=
  if negb (truthy_str (client_id cfg)) || negb (truthy_str (client_secret cfg))
  then (HTTPException 500
          "OAuth credentials not configured. Please set GOOGLE_CLIENT_ID and GOOGLE_CLIENT_SECRET in .env file",
        srv)
  else
    let session := new_session now in
    let session :=
      mkSession (token session) state (job_id session) (created_at session)
                (progress session) in
    let srv' := mkServer (dict_set session_id session (sessions srv))
                         (disk srv) in
    match flow with
    | inr auth_url =>
        (Json_auth_url auth_url (mkCookie "session_id" session_id 3600 true "lax"),
         srv')
    | inl e =>
        (HTTPException 500 ("Failed to create OAuth flow: " ++ str e), srv')
    end.

(** [auth_callback]: [exchange] is what [create_flow] and [fetch_token]
    give, the credentials or an exception. *)
Definition auth_callback (r : Request) (exchange : Exn + Credentials)
    (srv : Server) : Response * Server :=
  let code := param_code r in
  let state_param := param_state r in
  let error_param := param_error r in
  if truthy_str error_param then
    (RedirectResponse ("/?error=" ++ get error_param "") default_redirect, srv)
  else if negb (truthy_str code) || negb (truthy_str state_param) then
    (RedirectResponse "/?error=missing_parameters" default_redirect, srv)
  else
    match find_session r srv with
    | None => (RedirectResponse "/?error=invalid_session" default_redirect, srv)
    | Some (session_id, session) =>
        if negb (String.eqb (get state_param "") (state session)) then
          (RedirectResponse "/?error=state_mismatch" default_redirect, srv)
        else
          match exchange with
          | inr credentials =>
              let p := progress session in
              (RedirectResponse "/dashboard" 302,
               mkServer
                 (dict_set session_id
                    (mkSession (Some credentials) (state session)
                       (job_id session) (created_at session)
                       (mkProgress (total_files p) (processed_files p)
                          (current_file p) Authenticated (zip_files p)
                          (error p)))
                    (sessions srv))
                 (disk srv))
          | inl e =>
              (RedirectResponse "/?error=token_exchange_failed" default_redirect,
               srv)
          end
    end.

Definition dashboard (r : Request) (srv : Server) : Response :=
  match find_session r srv with
  | None => RedirectResponse "/" default_redirect
  | Some (_, session) =>
      match token session with
      | None => RedirectResponse "/" default_redirect
      | Some _ => TemplateResponse "dashboard.html"
      end
  end.

(** [start_download]: [job] is the random token; the third component is
    the session [process_download] is scheduled on, if it is. *)
Definition start_download (r : Request) (job : string) (srv : Server)
    : Response * Server * option UserSession :=
  match find_session r srv with
  | None => (HTTPException 401 "Not authenticated", srv, None)
  | Some (session_id, session) =>
      match token session with
      | None => (HTTPException 401 "Not authenticated", srv, None)
      | Some _ =>
          let session :=
            mkSession (token session) (state session) job
                      (created_at session) starting_progress in
          (Json_job_id job,
           mkServer (dict_set session_id session (sessions srv)) (disk srv),
           Some session)
      end
  end.

Definition get_progress (r : Request) (srv : Server) : Response :=
  match find_session r srv with
  | None => HTTPException 404 "Session not found"
  | Some (_, session) => Json_progress (progress session)
  end.

Definition download_file (r : Request) (filename : string) (srv : Server)
    : Response :=
  match find_session r srv with
  | None => HTTPException 401 "Unauthorized"
  | Some (_, session) =>
      let file_path :=
        path_join (path_join "downloads" (job_id session)) filename in
      if negb (path_exists (disk srv) file_path) then
        HTTPException 404 "File not found"
      else FileResponse file_path filename "application/zip"
  end.

End Http.

(** A request with the cookie [session_id] only. *)
Definition cookie_request (session_id : string) : Http.Request :=
  Http.mkRequest (Some session_id) None None None.

(** The request the provider redirects the browser to after consent. *)
Definition callback_request (session_id code st : string) : Http.Request :=
  Http.mkRequest (Some session_id) (Some code) (Some st) None.

(* ================================================================= *)
(** ** Fixtures for the examples *)

(** A file system on which every call succeeds. *)
Definition quiet_env (script : list Answer) (service : MediaRequest -> Download)
    : Env :=
  mkEnv None None script service
        (fun _ => None) (fun _ => None) (fun _ _ _ => None) (fun _ => None).

Definition plain_file (i n : string) (sz : option Z) : FileRecord :=
  mkFile i n "text/plain" sz (Some true).

(** A session as [start_download] leaves it. *)
Definition started_session (job : string) : UserSession :=
  mkSession (Some (mkCredentials false)) "state" job 0 starting_progress.

(** Three pages of two files, with the continuation tokens a, b and none. *)
Definition three_pages : list Answer :=
  [ Answers (mkPage (Some [plain_file "1" "one" None; plain_file "2" "two" None])
                    (Some "a"));
    Answers (mkPage (Some [plain_file "3" "three" None; plain_file "4" "four" None])
                    (Some "b"));
    Answers (mkPage (Some [plain_file "5" "five" None; plain_file "6" "six" None])
                    None) ].

(** An inventory with a record that cannot be downloaded, a folder, a
    file the provider no longer finds, a file that downloads in two
    chunks and a file whose download breaks. *)
Definition f_locked : FileRecord :=
  mkFile "1" "locked" "text/plain" (Some 10) (Some false).
Definition f_folder : FileRecord := mkFile "5" "folder" mime_folder None None.
Definition f_gone : FileRecord := plain_file "2" "gone" (Some 10).
Definition f_notes : FileRecord := plain_file "3" "notes.txt" (Some 2).
Definition f_broken : FileRecord := plain_file "4" "broken" (Some 10).

Definition mixed_service (r : MediaRequest) : Download :=
  match r with
  | get_media "2" => ChunkFails (HttpError 404 "not found")
  | get_media "3" => Chunk [Byte.x68] (LastChunk [Byte.x69])
  | _ => ChunkFails (HttpError 500 "backend error")
  end.

Definition mixed_env : Env :=
  quiet_env
    [Answers (mkPage (Some [f_locked; f_folder; f_gone; f_notes; f_broken]) None)]
    mixed_service.

(** A disk that has room for the first archive only, and two files of
    which the second is declared too large to share an archive. *)
Definition full_disk_env : Env :=
  mkEnv None None [] (fun _ => LastChunk [Byte.x01])
        (fun _ => None)
        (fun p => if endswith p "002.zip" then Some (Exception "disk full")
                  else None)
        (fun _ _ _ => None) (fun _ => None).

Definition f_small : FileRecord := plain_file "1" "small" (Some 1).
Definition f_large : FileRecord := plain_file "2" "large" (Some max_zip_size).

(** Contents too large to write down: [n] zero bytes. *)
Definition zero_bytes (n : Z) : bytes := repeat Byte.x00 (Z.to_nat n).

(** Two files of 1.5 GiB and 1 GiB, declared and actual. *)
Definition f_first : FileRecord := plain_file "1" "first.bin" (Some (3 * 2 ^ 29)).
Definition f_second : FileRecord := plain_file "2" "second.bin" (Some (2 ^ 30)).

Definition large_files_env : Env :=
  quiet_env []
    (fun r => match r with
              | get_media "1" => LastChunk (zero_bytes (3 * 2 ^ 29))
              | _ => LastChunk (zero_bytes (2 ^ 30))
              end).

(** A file that fills the first archive up to 1000 bytes below the
    ceiling, and an empty file, which declares the size 0. *)
Definition f_nearly_full : FileRecord :=
  plain_file "1" "nearly_full.bin" (Some (max_zip_size - 1000)).
Definition f_empty : FileRecord := plain_file "2" "empty.txt" (Some 0).

Definition nearly_full_env : Env :=
  quiet_env []
    (fun r => match r with
              | get_media "1" => LastChunk (zero_bytes (max_zip_size - 1000))
              | _ => LastChunk []
              end).

(** A registry with a session made five hours ago and one made three
    hours ago, each with a job and its directory. *)
Definition two_sessions_server : Server :=
  mkServer
    [ ("old", mkSession (Some (mkCredentials false)) "st" "job-old" 0
                        (mkProgress 3 3 "c" Completed ["drive_backup_001.zip"] ""));
      ("new", mkSession (Some (mkCredentials false)) "st" "job-new" (hours 2)
                        starting_progress) ]
    ["downloads"; "templates"; "downloads/job-old"; "downloads/job-new"].

(** A session made at time 0 whose job is started two hours later, with
    the hourly turns of the sweep in between. *)
Definition late_start_timeline : list (Z * Event) :=
  [ (0, Login "s" "st"); (1, Callback "s");
    (hours 1, CleanupTick); (hours 2, CleanupTick);
    (hours 2, StartDownload "s" "job"); (hours 2, JobMakedirs "job");
    (hours 3, CleanupTick); (hours 4, CleanupTick) ].

(** A session that logs in and never starts a job, and a second one that
    starts a job two hours later. *)
Definition idle_session_timeline : list (Z * Event) :=
  [ (0, Login "idle" "st0");
    (hours 2, Login "s" "st"); (hours 2, Callback "s");
    (hours 2, StartDownload "s" "job"); (hours 2, JobMakedirs "job") ].

(* ================================================================= *)
(** * Theorems *)

Example format_03d_1 : format_03d 1 = "001".
Proof. reflexivity. Qed.

Example format_03d_42 : format_03d 42 = "042".
Proof. reflexivity. Qed.

Example format_03d_1000 : format_03d 1000 = "1000".
Proof. reflexivity. Qed.

Example safe_name_report :
  get_safe_filename (mkFile "1" "Report" mime_document None None) = "Report.docx".
Proof. reflexivity. Qed.

Example safe_name_needs_dot :
  get_safe_filename (mkFile "1" "mydocx" mime_document None None) = "mydocx.docx".
Proof. reflexivity. Qed.

Example safe_name_illegal :
  get_safe_filename (mkFile "1" "a<b>c:d/e\f|g?h*i.PDF" mime_drawing None None)
  = "a_b_c_d_e_f_g_h_i.PDF".
Proof. reflexivity. Qed.

(* ================================================================= *)
(** ** The filename sanitizer *)

Lemma remove_invalid_cons c r :
  remove_invalid (String c r) = String (underscore_invalid c) (remove_invalid r).
Proof.
  unfold remove_invalid.
  cbn [invalid_chars list_ascii_of_string String.append fold_left replace].
  f_equal.
  destruct c as [[] [] [] [] [] [] [] []]; vm_compute; reflexivity.
Qed.

Lemma remove_invalid_map s : remove_invalid s = string_map underscore_invalid s.
Proof.
  induction s as [|c r IH]; [reflexivity|].
  rewrite remove_invalid_cons. cbn [string_map]. now rewrite IH.
Qed.

Lemma string_map_length f s : String.length (string_map f s) = String.length s.
Proof. induction s; cbn; congruence. Qed.

Lemma substring_map f s : forall n k,
  substring n k (string_map f s) = string_map f (substring n k s).
Proof.
  induction s as [|c r IH]; intros [|n] [|k]; cbn; try reflexivity.
  - now rewrite IH.
  - apply IH.
  - apply IH.
Qed.

Lemma lower_map s : lower s = string_map lower_char s.
Proof. induction s; cbn; congruence. Qed.

Lemma string_map_map f g s :
  string_map f (string_map g s) = string_map (fun c => f (g c)) s.
Proof. induction s; cbn; congruence. Qed.

(** Two maps that agree on which characters they send to the characters
    of [suffix] cannot be told apart by a comparison with [suffix]. *)
Lemma eqb_map_agree f g : forall suffix t,
  (forall d, In d (list_ascii_of_string suffix) ->
             forall c, Ascii.eqb (f c) d = Ascii.eqb (g c) d) ->
  String.eqb (string_map f t) suffix = String.eqb (string_map g t) suffix.
Proof.
  induction suffix as [|d suffix IH]; intros [|c t] H; cbn; try reflexivity.
  rewrite (H d (or_introl eq_refl)), IH; [reflexivity|].
  intros d' Hd'. apply H. now right.
Qed.

Lemma extension_char_stable d c :
  In d extension_chars ->
  Ascii.eqb (lower_char (underscore_invalid c)) d = Ascii.eqb (lower_char c) d.
Proof.
  intros Hd. cbn in Hd.
  repeat (destruct Hd as [<- | Hd];
          [destruct c as [[] [] [] [] [] [] [] []]; vm_compute; reflexivity|]).
  destruct Hd.
Qed.

(** Replacing the illegal characters does not change whether the name
    ends with an extension, whatever the case of its letters. *)
Lemma endswith_lower_remove_invalid s suffix :
  incl (list_ascii_of_string suffix) extension_chars ->
  endswith (lower (string_map underscore_invalid s)) suffix
  = endswith (lower s) suffix.
Proof.
  intros Hin. unfold endswith.
  rewrite !lower_map, string_map_map, !string_map_length, !substring_map.
  f_equal.
  rewrite <- string_map_map.
  rewrite (string_map_map lower_char underscore_invalid).
  apply eqb_map_agree.
  intros d Hd c. apply extension_char_stable. now apply Hin.
Qed.

Lemma export_extension_native m :
  is_google_apps_file m = true ->
  export_extension_of m = Some (get_file_extension (get_export_format m))
  /\ incl (list_ascii_of_string ("." ++ get_file_extension (get_export_format m)))
          extension_chars.
Proof.
  unfold is_google_apps_file, export_extension_of, google_apps_types.
  cbn [existsb].
  destruct (String.eqb_spec m mime_document) as [->|_];
    [intros _; split; [reflexivity|]|].
  { intros d Hd; cbn in Hd; cbn; intuition auto. }
  destruct (String.eqb_spec m mime_spreadsheet) as [->|_];
    [intros _; split; [reflexivity|]|].
  { intros d Hd; cbn in Hd; cbn; intuition auto. }
  destruct (String.eqb_spec m mime_presentation) as [->|_];
    [intros _; split; [reflexivity|]|].
  { intros d Hd; cbn in Hd; cbn; intuition auto. }
  destruct (String.eqb_spec m mime_drawing) as [->|_];
    [intros _; split; [reflexivity|]|].
  { intros d Hd; cbn in Hd; cbn; intuition auto. }
  cbn. discriminate.
Qed.

Lemma export_extension_ordinary m :
  is_google_apps_file m = false -> export_extension_of m = None.
Proof.
  unfold is_google_apps_file, export_extension_of, google_apps_types.
  cbn [existsb].
  destruct (String.eqb m mime_document); [discriminate|].
  destruct (String.eqb m mime_spreadsheet); [discriminate|].
  destruct (String.eqb m mime_presentation); [discriminate|].
  destruct (String.eqb m mime_drawing); [discriminate|reflexivity].
Qed.

Lemma get_safe_filename_refines file :
  get_safe_filename file = sanitize_spec file.
Proof.
  unfold get_safe_filename, sanitize_spec.
  rewrite remove_invalid_map.
  destruct (is_google_apps_file (mimeType file)) eqn:Hnative.
  - destruct (export_extension_native _ Hnative) as [-> Hchars].
    rewrite (endswith_lower_remove_invalid _ _ Hchars).
    now destruct (endswith _ _).
  - now rewrite (export_extension_ordinary _ Hnative).
Qed.

Lemma legal_name_fixed s :
  legal_name s = true -> string_map underscore_invalid s = s.
Proof.
  unfold legal_name.
  induction s as [|c r IH]; cbn [string_forallb string_map]; [reflexivity|].
  intros H. apply andb_prop in H as [Hc Hr].
  rewrite (IH Hr). unfold underscore_invalid.
  now destruct (is_invalid_char c).
Qed.



(* ================================================================= *)
(** ** The lister *)

Lemma with_list_requests_nil w : with_list_requests w [] = w.
Proof.
  destruct w. unfold with_list_requests. cbn. now rewrite app_nil_r.
Qed.

Lemma with_list_requests_cons w t ts :
  with_list_requests (with_list_requests w [t]) ts
  = with_list_requests w (t :: ts).
Proof.
  unfold with_list_requests. cbn. now rewrite <- app_assoc.
Qed.

(** The loop walks through the pages that carry a token and stops, with
    everything gathered, at the first page that carries none. *)
Lemma list_loop_stops pre : forall last rest tok acc w,
  forallb has_token pre = true ->
  has_token last = false ->
  list_loop (map Answers pre ++ Answers last :: rest) tok acc w
  = (Return (acc ++ List.concat (map page_files (pre ++ [last])))%list,
     with_list_requests w (tok :: map nextPageToken pre)).
Proof.
  induction pre as [|p pre IH]; intros last rest tok acc w Hpre Hlast.
  - cbn. unfold bind, log_list_request, modify. unfold has_token in Hlast.
    rewrite Hlast. cbn. unfold ret, page_files.
    now rewrite app_nil_r, <- (with_list_requests_cons w tok []),
      with_list_requests_nil.
  - cbn in Hpre. apply andb_prop in Hpre as [Hp Hpre].
    cbn [map app list_loop]. unfold bind at 1, log_list_request, modify.
    unfold has_token in Hp. rewrite Hp. cbn [negb].
    rewrite (IH last rest _ _ _ Hpre Hlast).
    cbn [map app List.concat]. unfold page_files at 2.
    now rewrite <- app_assoc, with_list_requests_cons.
Qed.

(** A failed request ends the loop with an exception: nothing gathered so
    far is returned. *)
Lemma list_loop_fails pre : forall e rest tok acc w,
  forallb has_token pre = true ->
  list_loop (map Answers pre ++ ExecuteFails e :: rest) tok acc w
  = (Raise (listing_error e),
     with_list_requests w (tok :: map nextPageToken pre)).
Proof.
  induction pre as [|p pre IH]; intros e rest tok acc w Hpre.
  - cbn. unfold bind, log_list_request, modify.
    rewrite <- (with_list_requests_cons w tok []), with_list_requests_nil.
    now destruct e.
  - cbn in Hpre. apply andb_prop in Hpre as [Hp Hpre].
    cbn [map app list_loop]. unfold bind at 1, log_list_request, modify.
    unfold has_token in Hp. rewrite Hp. cbn [negb].
    rewrite (IH e rest _ _ _ Hpre).
    now rewrite with_list_requests_cons.
Qed.

(** While every page carries a token the loop asks for the next one. *)
Lemma list_loop_goes_on pre : forall tok acc w,
  forallb has_token pre = true ->
  fst (list_loop (map Answers pre) tok acc w) = Blocked.
Proof.
  induction pre as [|p pre IH]; intros tok acc w Hpre; [reflexivity|].
  cbn in Hpre. apply andb_prop in Hpre as [Hp Hpre].
  cbn [map list_loop]. unfold bind at 1, log_list_request, modify.
  unfold has_token in Hp. rewrite Hp. cbn [negb].
  now apply IH.
Qed.

(** Every script falls under one of the three cases. *)
Lemma script_cases (script : list Answer) :
  (exists pre last rest,
      script = (map Answers pre ++ Answers last :: rest)%list
      /\ forallb has_token pre = true /\ has_token last = false)
  \/ (exists pre e rest,
      script = (map Answers pre ++ ExecuteFails e :: rest)%list
      /\ forallb has_token pre = true)
  \/ (exists pre, script = map Answers pre /\ forallb has_token pre = true).
Proof.
  induction script as [|a script IH].
  - right; right. now exists [].
  - destruct a as [p|e].
    + destruct (has_token p) eqn:Hp.
      * destruct IH as [(pre & last & rest & -> & Hpre & Hlast)
                       |[(pre & e & rest & -> & Hpre)|(pre & -> & Hpre)]].
        -- left. exists (p :: pre), last, rest. cbn. now rewrite Hp.
        -- right; left. exists (p :: pre), e, rest. cbn. now rewrite Hp.
        -- right; right. exists (p :: pre). cbn. now rewrite Hp.
      * left. now exists [], p, script.
    + right; left. now exists [], e, script.
Qed.

(** C2. [list_all_files] asks for pages of 1000 records with the query
    [trashed=false], the first time without a token and then with the
    token of the page before.  It returns at the first page that carries
    no continuation token (an absent or an empty one), with the records
    of all pages up to that one, in the order received; it neither stops
    earlier nor asks again.  When a request fails the call raises and
    returns no record.  Three pages of two files with the tokens a, b and
    none give six records in the order of the calls.  Every script of
    answers falls under one of the three cases: a first page without a
    token, a failure before any such page, or tokens on every page. *)
Theorem list_all_files_correct (env : Env) (w : World) :
  (forall pre last rest,
      list_script env = (map Answers pre ++ Answers last :: rest)%list ->
      forallb has_token pre = true ->
      has_token last = false ->
      list_all_files env w
      = (Return (List.concat (map page_files (pre ++ [last]))),
         with_list_requests w (None :: map nextPageToken pre)))
  /\ (forall pre e rest,
      list_script env = (map Answers pre ++ ExecuteFails e :: rest)%list ->
      forallb has_token pre = true ->
      list_all_files env w
      = (Raise (listing_error e),
         with_list_requests w (None :: map nextPageToken pre)))
  /\ (forall pre,
      list_script env = map Answers pre ->
      forallb has_token pre = true ->
      fst (list_all_files env w) = Blocked)
  /\ ((exists pre last rest,
         list_script env = (map Answers pre ++ Answers last :: rest)%list
         /\ forallb has_token pre = true /\ has_token last = false)
      \/ (exists pre e rest,
            list_script env = (map Answers pre ++ ExecuteFails e :: rest)%list
            /\ forallb has_token pre = true)
      \/ (exists pre,
            list_script env = map Answers pre /\ forallb has_token pre = true))
  /\ (forall tok,
      pageSize (list_request tok) = 1000
      /\ q (list_request tok) = "trashed=false"
      /\ pageToken (list_request tok) = tok)
  /\ (forall f1 f2 f3 f4 f5 f6,
      list_script env
      = [ Answers (mkPage (Some [f1; f2]) (Some "a"));
          Answers (mkPage (Some [f3; f4]) (Some "b"));
          Answers (mkPage (Some [f5; f6]) None) ] ->
      fst (list_all_files env w) = Return [f1; f2; f3; f4; f5; f6]).
Proof.
  unfold list_all_files.
  split; [|split; [|split; [|split; [exact (script_cases (list_script env))|split]]]].
  - intros pre last rest -> Hpre Hlast.
    now rewrite (list_loop_stops pre last rest None [] w Hpre Hlast).
  - intros pre e rest -> Hpre.
    now rewrite (list_loop_fails pre e rest None [] w Hpre).
  - intros pre -> Hpre. now apply list_loop_goes_on.
  - intros tok. now cbn.
  - intros f1 f2 f3 f4 f5 f6 ->.
    exact (f_equal fst
             (list_loop_stops
                [mkPage (Some [f1; f2]) (Some "a");
                 mkPage (Some [f3; f4]) (Some "b")]
                (mkPage (Some [f5; f6]) None) [] None [] w eq_refl eq_refl)).
Qed.

Lemma list_all_files_correct_witness :
  fst (list_all_files (quiet_env three_pages (fun _ => LastChunk []))
                      (initial_world (started_session "job")))
  = Return [ plain_file "1" "one" None; plain_file "2" "two" None;
             plain_file "3" "three" None; plain_file "4" "four" None;
             plain_file "5" "five" None; plain_file "6" "six" None ].
Proof.
  apply (proj2 (proj2 (proj2 (proj2 (proj2
           (list_all_files_correct
              (quiet_env three_pages (fun _ => LastChunk []))
              (initial_world (started_session "job")))))))).
  reflexivity.
Defined.

Example list_all_files_http_error :
  list_all_files
    (quiet_env [ Answers (mkPage (Some [plain_file "1" "one" None]) (Some "a"));
                 ExecuteFails (HttpError 500 "backend error") ]
               (fun _ => LastChunk []))
    (initial_world (started_session "job"))
  = (Raise (Exception "Failed to list files: backend error"),
     with_list_requests (initial_world (started_session "job"))
                        [None; Some "a"]).
Proof. reflexivity. Qed.

Example list_all_files_empty_token :
  fst (list_all_files
         (quiet_env [ Answers (mkPage (Some [plain_file "1" "one" None]) (Some ""));
                      Answers (mkPage (Some [plain_file "2" "two" None]) None) ]
                    (fun _ => LastChunk []))
         (initial_world (started_session "job")))
  = Return [plain_file "1" "one" None].
Proof. reflexivity. Qed.

(* ================================================================= *)
(** ** The fetcher *)

Lemma next_chunks_outcome d : forall file_io,
  next_chunks d file_io
  = match reported_error d with
    | Some e => Raise e
    | None => Return (file_io ++ whole_content d)%list
    end.
Proof.
  induction d as [data rest IH|data|e]; intros file_io; cbn; try reflexivity.
  rewrite IH. destruct (reported_error rest); [reflexivity|].
  now rewrite app_assoc.
Qed.

(** The three ways a fetch ends, by what the provider reports. *)
Lemma download_single_file_outcome env file w :
  download_single_file env file w
  = (match reported_error (media env (media_request file)) with
     | None => Return (Some (whole_content (media env (media_request file))))
     | Some e => if not_found_or_forbidden e then Return None else Raise e
     end,
     with_media_request w (media_request file)).
Proof.
  unfold download_single_file, bind, log_media_request, modify.
  rewrite next_chunks_outcome.
  destruct (reported_error _) as [[status text|text]|]; cbn; try reflexivity.
  now destruct ((status =? 403) || (status =? 404)).
Qed.

(** C5. [download_single_file] returns [None] without raising exactly
    when the provider answers the download with an [HttpError] of status
    403 or 404; every other error of the provider is raised to the caller
    as it is; a download that completes returns the content. *)
Theorem download_single_file_contract (env : Env) (file : FileRecord) (w : World) :
  (fst (download_single_file env file w) = Return None
   <-> exists status text,
         reported_error (media env (media_request file))
         = Some (HttpError status text)
         /\ (status = 403 \/ status = 404))
  /\ (forall e,
        reported_error (media env (media_request file)) = Some e ->
        not_found_or_forbidden e = false ->
        fst (download_single_file env file w) = Raise e)
  /\ (reported_error (media env (media_request file)) = None ->
        fst (download_single_file env file w)
        = Return (Some (whole_content (media env (media_request file))))).
Proof.
  rewrite download_single_file_outcome. cbn [fst].
  split; [|split].
  - destruct (reported_error _) as [[status text|text]|]; cbn.
    + destruct (Z.eqb_spec status 403) as [->|H403]; cbn.
      * split; [intros _; exists 403, text; auto|reflexivity].
      * destruct (Z.eqb_spec status 404) as [->|H404]; cbn.
        -- split; [intros _; exists 404, text; auto|reflexivity].
        -- split; [discriminate|].
           intros (s' & t' & Heq & Hs). injection Heq as -> ->. lia.
    + split; [discriminate|]. intros (s' & t' & Heq & _). discriminate.
    + split; [discriminate|]. intros (s' & t' & Heq & _). discriminate.
  - intros e -> He. now rewrite He.
  - now intros ->.
Qed.

Lemma download_single_file_contract_witness :
  fst (download_single_file
         (quiet_env [] (fun _ => Chunk [Byte.x01] (ChunkFails (HttpError 500 "backend error"))))
         (plain_file "1" "one" None)
         (initial_world (started_session "job")))
  = Raise (HttpError 500 "backend error").
Proof.
  apply (proj1 (proj2
           (download_single_file_contract
              (quiet_env [] (fun _ => Chunk [Byte.x01] (ChunkFails (HttpError 500 "backend error"))))
              (plain_file "1" "one" None)
              (initial_world (started_session "job")))));
    reflexivity.
Defined.

Example download_single_file_forbidden :
  fst (download_single_file
         (quiet_env [] (fun _ => ChunkFails (HttpError 403 "forbidden")))
         (plain_file "1" "one" None)
         (initial_world (started_session "job")))
  = Return None.
Proof. reflexivity. Qed.

Example download_single_file_native :
  download_single_file
    (quiet_env [] (fun r => match r with
                            | export_media _ _ => Chunk [Byte.x01] (LastChunk [Byte.x02])
                            | get_media _ => ChunkFails (Exception "wrong path")
                            end))
    (mkFile "9" "Sheet" mime_spreadsheet None None)
    (initial_world (started_session "job"))
  = (Return (Some [Byte.x01; Byte.x02]),
     with_media_request (initial_world (started_session "job"))
                        (export_media "9" mime_xlsx)).
Proof. reflexivity. Qed.

(* ================================================================= *)
(** ** The volume writer: what one turn of the loop does *)

Lemma update_nth_fixed {A} (f : A -> A) : forall l h,
  (forall x, nth_error l h = Some x -> f x = x) -> update_nth h f l = l.
Proof.
  induction l as [|x l IH]; intros [|h] H; cbn; try reflexivity.
  - now rewrite (H x eq_refl).
  - now rewrite IH.
Qed.

Lemma with_zips_fixed f w : f (zips w) = zips w -> with_zips f w = w.
Proof. destruct w. unfold with_zips. cbn. now intros ->. Qed.

Lemma close_zip_closed z : fp_open z = false -> close_zip z = z.
Proof. destruct z. cbn. now intros ->. Qed.

Lemma ZipFile_close_run env h w :
  ZipFile_close env h w
  = (match nth_error (zips w) h with
     | Some z =>
         if fp_open z then
           match zipfile_close env (zip_path z) with
           | Some e => Raise e
           | None => Return tt
           end
         else Return tt
     | None => Return tt
     end,
     with_zips (update_nth h close_zip) w).
Proof.
  unfold ZipFile_close, bind, gets, set_zips, modify, call, raise, ret.
  destruct (nth_error (zips w) h) as [z|] eqn:Hz.
  - destruct (fp_open z) eqn:Hopen.
    + now destruct (zipfile_close env (zip_path z)).
    + rewrite with_zips_fixed; [reflexivity|].
      apply update_nth_fixed. intros x Hx.
      rewrite Hz in Hx. injection Hx as <-. now apply close_zip_closed.
  - rewrite with_zips_fixed; [reflexivity|].
    apply update_nth_fixed. intros x Hx. now rewrite Hz in Hx.
Qed.

Lemma start_new_zip_run env jd w :
  start_new_zip env jd w
  = match close_error env w with
    | Some e => (Raise e, close_writer w)
    | None =>
        match zipfile_open env
                (path_join jd (zip_filename_of (zip_index (vars w)))) with
        | Some e => (Raise e, close_writer w)
        | None => (Return tt, open_zip jd (close_writer w))
        end
    end.
Proof.
  unfold start_new_zip, close_error, close_writer.
  unfold bind at 1. unfold gets at 1. unfold bind at 1.
  destruct (zip_writer (vars w)) as [h|] eqn:Hw.
  - rewrite ZipFile_close_run.
    destruct (nth_error (zips w) h) as [z|] eqn:Hz.
    + destruct (fp_open z) eqn:Hopen.
      * destruct (zipfile_close env (zip_path z)); [reflexivity|].
        unfold ZipFile_new, bind, call, raise, ret, gets, set_zips, set_vars,
          append_zip_file, set_progress, modify.
        now destruct (zipfile_open env _).
      * unfold ZipFile_new, bind, call, raise, ret, gets, set_zips, set_vars,
          append_zip_file, set_progress, modify.
        now destruct (zipfile_open env _).
    + unfold ZipFile_new, bind, call, raise, ret, gets, set_zips, set_vars,
          append_zip_file, set_progress, modify.
        now destruct (zipfile_open env _).
  - unfold ZipFile_new, bind, call, raise, ret, gets, set_zips, set_vars,
          append_zip_file, set_progress, modify.
    now destruct (zipfile_open env _).
Qed.

Lemma guarded_fetch_run env file w :
  try_except (fetch_and_write env file) (fun _ => ret tt) w
  = (Return tt, after_fetch env file w).
Proof.
  unfold try_except, fetch_and_write, after_fetch.
  unfold bind at 1. rewrite download_single_file_outcome.
  destruct (reported_error (media env (media_request file))) as [e|].
  - now destruct (not_found_or_forbidden e).
  - destruct (whole_content (media env (media_request file))) as [|b c] eqn:Hc;
      [reflexivity|].
    cbn [truthy_bytes get].
    unfold bind at 1. unfold bind at 1. unfold gets at 1.
    cbn [vars with_media_request zips].
    destruct (zip_writer (vars w)) as [h|]; [|reflexivity].
    unfold ZipFile_writestr, bind, gets, call, raise, ret, set_zips, set_vars, modify.
    cbn [vars with_media_request zips].
    destruct (nth_error (zips w) h) as [z|]; [|reflexivity].
    destruct (fp_open z); [|reflexivity].
    now destruct (zipfile_writestr env _ _ _).
Qed.

Lemma loop_body_run env jd i file w :
  loop_body env jd i file w
  = if negb (downloadable file) then (Return tt, mark_processed i w)
    else
      match (if needs_new_zip (vars w) (file_size_of file)
             then start_new_zip env jd w else (Return tt, w)) with
      | (Return _, w1) =>
          (Return tt,
           after_fetch env file (mark_processed i (mark_current file w1)))
      | (Raise e, w1) => (Raise e, w1)
      | (Blocked, w1) => (Blocked, w1)
      end.
Proof.
  unfold loop_body, downloadable.
  destruct (negb (get (canDownload file) true)); [reflexivity|].
  unfold bind at 1. unfold gets at 1. unfold bind at 1.
  destruct (needs_new_zip (vars w) (file_size_of file)).
  - destruct (start_new_zip env jd w) as [[u|e|] w1]; try reflexivity.
    unfold bind, set_current_file, set_processed_files, set_progress, modify.
    now rewrite guarded_fetch_run.
  - unfold ret at 1.
    unfold bind, set_current_file, set_processed_files, set_progress, modify.
    now rewrite guarded_fetch_run.
Qed.

(** *** Open and closed archives *)

Lemma nth_error_update_nth {A} (f : A -> A) : forall l h k,
  nth_error (update_nth h f l) k
  = if Nat.eqb k h then option_map f (nth_error l k) else nth_error l k.
Proof.
  induction l as [|x l IH]; intros [|h] [|k]; cbn; try reflexivity.
  - now destruct (Nat.eqb _ _).
  - apply IH.
Qed.

Lemma update_nth_length {A} (f : A -> A) : forall l h,
  List.length (update_nth h f l) = List.length l.
Proof. induction l as [|x l IH]; intros [|h]; cbn; auto. Qed.

Lemma all_closed_close_writer w :
  only_writer_open w -> all_closed (close_writer w).
Proof.
  intros J z Hin. apply In_nth_error in Hin as [k Hk].
  destruct (fp_open z) eqn:Hopen; [exfalso|reflexivity].
  unfold close_writer in Hk.
  destruct (zip_writer (vars w)) as [h|] eqn:Hw.
  - cbn in Hk. rewrite nth_error_update_nth in Hk.
    destruct (Nat.eqb_spec k h) as [->|Hne].
    + destruct (nth_error (zips w) h); [|discriminate].
      cbn in Hk. injection Hk as <-. discriminate.
    + specialize (J k z Hk Hopen). congruence.
  - specialize (J k z Hk Hopen). congruence.
Qed.

Lemma only_writer_open_open_zip jd w :
  all_closed w -> only_writer_open (open_zip jd w).
Proof.
  intros C k z Hk Hopen. cbn in *.
  destruct (Nat.lt_ge_cases k (List.length (zips w))) as [Hlt|Hge].
  - rewrite nth_error_app1 in Hk by assumption.
    apply nth_error_In in Hk. rewrite (C z Hk) in Hopen. discriminate.
  - rewrite nth_error_app2 in Hk by assumption.
    destruct (k - List.length (zips w))%nat as [|d] eqn:Hd.
    + f_equal. lia.
    + cbn in Hk. now destruct d.
Qed.

Lemma after_fetch_zips env file w :
  zips (after_fetch env file w) = zips w
  \/ exists h z,
       zip_writer (vars w) = Some h
       /\ nth_error (zips w) h = Some z
       /\ fp_open z = true
       /\ reported_error (media env (media_request file)) = None
       /\ whole_content (media env (media_request file)) <> []
       /\ zipfile_writestr env (zip_path z) (get_safe_filename file)
            (whole_content (media env (media_request file))) = None
       /\ after_fetch env file w
          = write_entry h (get_safe_filename file)
              (whole_content (media env (media_request file)))
              (with_media_request w (media_request file)).
Proof.
  unfold after_fetch.
  destruct (reported_error _); [now left|].
  destruct (whole_content _) as [|b c] eqn:Hc; [now left|].
  destruct (zip_writer (vars w)) as [h|]; [|now left].
  destruct (nth_error (zips w) h) as [z|] eqn:Hz; [|now left].
  destruct (fp_open z) eqn:Hopen; [|now left].
  destruct (zipfile_writestr env _ _ _) eqn:Hwr; [now left|].
  right. exists h, z. repeat split; try assumption; try reflexivity.
  discriminate.
Qed.

Lemma after_fetch_vars env file w :
  zip_writer (vars (after_fetch env file w)) = zip_writer (vars w)
  /\ zip_index (vars (after_fetch env file w)) = zip_index (vars w).
Proof.
  destruct (after_fetch_zips env file w) as [H|(h & z & _ & _ & _ & _ & _ & _ & ->)];
    [|now cbn].
  unfold after_fetch in *.
  destruct (reported_error _); [now cbn|].
  destruct (whole_content _) as [|b c] eqn:Hc; [now cbn|].
  destruct (zip_writer (vars w)) as [h|] eqn:Hw; [|now cbn].
  destruct (nth_error (zips w) h) as [z|] eqn:Hz; [|now cbn].
  destruct (fp_open z) eqn:Hopen; [|now cbn].
  destruct (zipfile_writestr env _ _ _) eqn:Hwr; now cbn.
Qed.

Lemma only_writer_open_after_fetch env file w :
  only_writer_open w -> only_writer_open (after_fetch env file w).
Proof.
  intros J k z Hk Hopen.
  rewrite (proj1 (after_fetch_vars env file w)).
  destruct (after_fetch_zips env file w)
    as [H|(h & z0 & Hw & Hz & Ho & _ & _ & _ & Heq)].
  - rewrite H in Hk. now apply (J k z).
  - rewrite Heq in Hk. cbn in Hk. rewrite nth_error_update_nth in Hk.
    destruct (Nat.eqb_spec k h) as [->|Hne]; [assumption|].
    now apply (J k z).
Qed.

Lemma only_writer_open_marks i file w :
  only_writer_open w -> only_writer_open (mark_processed i (mark_current file w)).
Proof. exact (fun J => J). Qed.

Lemma only_writer_open_closed w : all_closed w -> only_writer_open w.
Proof.
  intros C k z Hk Hopen. apply nth_error_In in Hk.
  rewrite (C z Hk) in Hopen. discriminate.
Qed.

Lemma loop_body_only_writer_open env jd i file w :
  only_writer_open w -> only_writer_open (snd (loop_body env jd i file w)).
Proof.
  intros J. rewrite loop_body_run.
  destruct (negb (downloadable file)); [exact J|].
  destruct (needs_new_zip _ _).
  - rewrite start_new_zip_run.
    pose proof (all_closed_close_writer w J) as C.
    destruct (close_error env w); [now apply only_writer_open_closed|].
    destruct (zipfile_open env _); [now apply only_writer_open_closed|].
    cbn [snd]. apply only_writer_open_after_fetch, only_writer_open_marks.
    now apply only_writer_open_open_zip.
  - cbn [snd]. now apply only_writer_open_after_fetch, only_writer_open_marks.
Qed.

Lemma loop_body_not_blocked env jd i file w :
  fst (loop_body env jd i file w) <> Blocked.
Proof.
  rewrite loop_body_run.
  destruct (negb (downloadable file)); [discriminate|].
  destruct (needs_new_zip _ _); [|discriminate].
  rewrite start_new_zip_run.
  destruct (close_error env w); [discriminate|].
  destruct (zipfile_open env _); discriminate.
Qed.

Lemma for_files_only_writer_open env jd files : forall i w,
  only_writer_open w -> only_writer_open (snd (for_files env jd i files w)).
Proof.
  induction files as [|file rest IH]; intros i w J; [exact J|].
  cbn [for_files]. unfold bind.
  pose proof (loop_body_only_writer_open env jd i file w J) as J1.
  destruct (loop_body env jd i file w) as [[u|e|] w1]; cbn [snd] in *;
    [now apply IH|assumption|assumption].
Qed.

Lemma for_files_not_blocked env jd files : forall i w,
  fst (for_files env jd i files w) <> Blocked.
Proof.
  induction files as [|file rest IH]; intros i w; [discriminate|].
  cbn [for_files]. unfold bind.
  pose proof (loop_body_not_blocked env jd i file w) as B.
  destruct (loop_body env jd i file w) as [[u|e|] w1]; cbn in *;
    [apply IH|discriminate|assumption].
Qed.

Lemma close_last_zip_run env w :
  close_last_zip env w
  = (match close_error env w with
     | Some e => Raise e
     | None => Return tt
     end,
     close_writer w).
Proof.
  unfold close_last_zip, close_error, close_writer, bind, gets.
  destruct (zip_writer (vars w)) as [h|]; [|reflexivity].
  rewrite ZipFile_close_run.
  destruct (nth_error _ _) as [z|]; [|reflexivity].
  destruct (fp_open z); [|reflexivity].
  now destruct (zipfile_close env _).
Qed.

Lemma download_to_zips_run env files w :
  download_to_zips env files w
  = let w0 := with_vars (fun _ => mkLocals 1 0 None) w in
    let job_dir := path_join "downloads" (job_id (session w)) in
    match makedirs env job_dir with
    | Some e => (Raise e, w0)
    | None =>
        try_finally (for_files env job_dir 0 files) (close_last_zip env)
                    (with_dir job_dir w0)
    end.
Proof.
  unfold download_to_zips, bind, set_vars, modify, gets, call, add_dir.
  cbn [session with_vars].
  now destruct (makedirs env _).
Qed.

Lemma try_finally_close_run env (body : M unit) w :
  fst (body w) <> Blocked ->
  try_finally body (close_last_zip env) w
  = (match close_error env (snd (body w)) with
     | Some e => Raise e
     | None => fst (body w)
     end,
     close_writer (snd (body w))).
Proof.
  intros B. unfold try_finally.
  destruct (body w) as [r w1]. cbn [fst snd] in *.
  rewrite close_last_zip_run.
  destruct r as [u|e|]; [| |congruence];
    now destruct (close_error env w1).
Qed.

Lemma download_to_zips_closes env files w :
  all_closed w ->
  all_closed (snd (download_to_zips env files w))
  /\ fst (download_to_zips env files w) <> Blocked.
Proof.
  intros C. rewrite download_to_zips_run. cbv zeta.
  destruct (makedirs env _) as [e|].
  { split; [exact C|discriminate]. }
  rewrite try_finally_close_run by apply for_files_not_blocked.
  cbn [fst snd]. split.
  - apply all_closed_close_writer, for_files_only_writer_open.
    now apply only_writer_open_closed.
  - pose proof (for_files_not_blocked env
                  (path_join "downloads" (job_id (session w))) files 0
                  (with_dir (path_join "downloads" (job_id (session w)))
                     (with_vars (fun _ => mkLocals 1 0 None) w))) as B.
    destruct (fst (for_files _ _ _ _ _)); destruct (close_error _ _);
      congruence.
Qed.

(** *** Frames: what the state transformers leave alone *)

Lemma after_fetch_session env file w :
  session (after_fetch env file w) = session w.
Proof.
  destruct (after_fetch_zips env file w)
    as [H|(h & z & _ & _ & _ & _ & _ & _ & ->)]; [|reflexivity].
  unfold after_fetch.
  destruct (reported_error _); [reflexivity|].
  destruct (whole_content _); [reflexivity|].
  destruct (zip_writer (vars w)) as [h|]; [|reflexivity].
  destruct (nth_error (zips w) h) as [z|]; [|reflexivity].
  destruct (fp_open z); [|reflexivity].
  now destruct (zipfile_writestr env _ _ _).
Qed.

Lemma after_fetch_media_log env file w :
  media_log (after_fetch env file w)
  = (media_log w ++ [media_request file])%list.
Proof.
  unfold after_fetch.
  destruct (reported_error _); [reflexivity|].
  destruct (whole_content _); [reflexivity|].
  destruct (zip_writer (vars w)) as [h|]; [|reflexivity].
  destruct (nth_error (zips w) h) as [z|]; [|reflexivity].
  destruct (fp_open z); [|reflexivity].
  now destruct (zipfile_writestr env _ _ _).
Qed.

Lemma close_writer_frame w :
  session (close_writer w) = session w
  /\ vars (close_writer w) = vars w
  /\ media_log (close_writer w) = media_log w
  /\ map entries (zips (close_writer w)) = map entries (zips w)
  /\ map zip_path (zips (close_writer w)) = map zip_path (zips w).
Proof.
  unfold close_writer.
  destruct (zip_writer (vars w)) as [h|]; [|now repeat split].
  cbn. repeat split.
  - generalize (zips w) h. clear.
    induction l as [|z l IH]; intros [|h]; cbn; try reflexivity.
    now rewrite IH.
  - generalize (zips w) h. clear.
    induction l as [|z l IH]; intros [|h]; cbn; try reflexivity.
    now rewrite IH.
Qed.

(** *** The counter of processed files *)

(** The outcomes of one turn of the loop. *)
Lemma loop_body_cases env jd i file w :
  (downloadable file = false
   /\ loop_body env jd i file w = (Return tt, mark_processed i w))
  \/ (downloadable file = true
      /\ needs_new_zip (vars w) (file_size_of file) = false
      /\ loop_body env jd i file w
         = (Return tt,
            after_fetch env file (mark_processed i (mark_current file w))))
  \/ (downloadable file = true
      /\ needs_new_zip (vars w) (file_size_of file) = true
      /\ close_error env w = None
      /\ zipfile_open env (path_join jd (zip_filename_of (zip_index (vars w))))
         = None
      /\ loop_body env jd i file w
         = (Return tt,
            after_fetch env file
              (mark_processed i
                 (mark_current file (open_zip jd (close_writer w))))))
  \/ (downloadable file = true
      /\ needs_new_zip (vars w) (file_size_of file) = true
      /\ exists e,
           (close_error env w = Some e
            \/ zipfile_open env
                 (path_join jd (zip_filename_of (zip_index (vars w)))) = Some e)
           /\ loop_body env jd i file w = (Raise e, close_writer w)).
Proof.
  rewrite loop_body_run.
  destruct (downloadable file); cbn [negb]; [|now left].
  right.
  destruct (needs_new_zip _ _); [|now left].
  right. rewrite start_new_zip_run.
  destruct (close_error env w) as [e|].
  { right. repeat split. exists e. split; [now left|reflexivity]. }
  destruct (zipfile_open env _) as [e|].
  { right. repeat split. exists e. split; [now right|reflexivity]. }
  left. now repeat split.
Qed.

Lemma loop_body_progress env jd i file w :
  total_files (snapshot (snd (loop_body env jd i file w)))
  = total_files (snapshot w)
  /\ ((fst (loop_body env jd i file w) = Return tt
       /\ processed_files (snapshot (snd (loop_body env jd i file w))) = i + 1)
      \/ (exists e,
            fst (loop_body env jd i file w) = Raise e
            /\ processed_files (snapshot (snd (loop_body env jd i file w)))
               = processed_files (snapshot w))).
Proof.
  unfold snapshot.
  destruct (loop_body_cases env jd i file w)
    as [(_ & ->)|[(_ & _ & ->)|[(_ & _ & _ & _ & ->)|(_ & _ & e & _ & ->)]]];
    cbn [fst snd]; rewrite ?after_fetch_session.
  - split; [reflexivity|left; now split].
  - split; [reflexivity|left; now split].
  - cbn. rewrite (proj1 (close_writer_frame w)).
    split; [reflexivity|left; now split].
  - rewrite (proj1 (close_writer_frame w)).
    split; [reflexivity|right; exists e; now split].
Qed.


Lemma for_files_progress env jd files : forall i w,
  total_files (snapshot (snd (for_files env jd i files w)))
  = total_files (snapshot w)
  /\ (fst (for_files env jd i files w) = Return tt ->
      files <> [] ->
      processed_files (snapshot (snd (for_files env jd i files w)))
      = i + Z.of_nat (List.length files))
  /\ (processed_files (snapshot w) <= i ->
      processed_files (snapshot w)
      <= processed_files (snapshot (snd (for_files env jd i files w)))
      <= i + Z.of_nat (List.length files)).
Proof.
  induction files as [|file rest IH]; intros i w.
  - cbn. repeat split; [congruence|lia|lia].
  - cbn [for_files List.length]. unfold bind.
    destruct (loop_body_progress env jd i file w) as [Ht Hp].
    destruct (loop_body env jd i file w) as [r w1]. cbn [fst snd] in Ht, Hp.
    destruct Hp as [[-> Hp]|(e & -> & Hp)].
    + destruct (IH (i + 1) w1) as (IHt & IHr & IHp).
      split; [congruence|]. split.
      * intros Hr _. destruct rest as [|f rest'].
        -- cbn. lia.
        -- rewrite IHr; [cbn [List.length]; lia|assumption|discriminate].
      * intros Hle. specialize (IHp ltac:(lia)). lia.
    + cbn [fst snd]. split; [assumption|]. split; [discriminate|]. lia.
Qed.

(** *** The phases of [process_download] *)

Lemma same_job_refl w : same_job w w.
Proof. now repeat split. Qed.


Lemma bind_assoc {A B C} (m : M A) (k : A -> M B) (k' : B -> M C) w :
  bind (bind m k) k' w = bind m (fun a => bind (k a) k') w.
Proof. unfold bind. now destruct (m w) as [[a|e|] w1]. Qed.

Lemma process_download_phases env w :
  process_download env w
  = try_except (connect env ;; files <- list_all_files env ;;
                download_phase env files) report_error w.
Proof.
  unfold process_download, try_except, connect, download_phase, report_error.
  unfold bind, gets.
  destruct (set_status Initializing w) as [[u|e|] w1]; try reflexivity.
  destruct (token (session w1)) as [c|]; [destruct (expired c)|];
    repeat (match goal with
            | |- context [let (_, _) := ?x in _] =>
                lazymatch x with
                | context [let (_, _) := _ in _] => fail
                | _ => destruct x as [[?|?|] ?]
                end
            end; try reflexivity).
Qed.

Lemma connect_cases env w :
  same_job w (snd (connect env w))
  /\ ((fst (connect env w) = Return tt
       /\ status (snapshot (snd (connect env w))) = ListingFiles)
      \/ exists e, fst (connect env w) = Raise e).
Proof.
  unfold connect, bind, set_status, set_progress, set_token, gets, modify,
    call, raise, ret, snapshot.
  cbn [session with_progress with_session token].
  destruct (token (session w)) as [c|].
  - destruct (expired c).
    + destruct (token_refresh env) as [e|].
      * split; [now repeat split|right; now exists e].
      * destruct (build env) as [e|].
        -- split; [now repeat split|right; now exists e].
        -- split; [now repeat split|left; now split].
    + destruct (build env) as [e|].
      * split; [now repeat split|right; now exists e].
      * split; [now repeat split|left; now split].
  - split; [now repeat split|right; eexists; reflexivity].
Qed.

Lemma list_loop_frame script : forall tok acc w,
  exists tokens,
    snd (list_loop script tok acc w) = with_list_requests w tokens.
Proof.
  induction script as [|a script IH]; intros tok acc w.
  - exists []. now rewrite with_list_requests_nil.
  - cbn [list_loop]. unfold bind, log_list_request, modify.
    destruct a as [p|e].
    + destruct (negb (truthy_str (nextPageToken p))).
      * now exists [tok].
      * destruct (IH (nextPageToken p) (acc ++ get (files p) [])%list
                     (with_list_requests w [tok])) as [tokens ->].
        exists (tok :: tokens). apply with_list_requests_cons.
    + exists [tok]. now destruct e.
Qed.

Lemma list_all_files_same_job env w :
  same_job w (snd (list_all_files env w))
  /\ status (snapshot (snd (list_all_files env w))) = status (snapshot w).
Proof.
  unfold list_all_files.
  destruct (list_loop_frame (list_script env) None [] w) as [tokens ->].
  split; [now repeat split|reflexivity].
Qed.



Lemma download_phase_run env files w :
  try_except (download_phase env files) report_error w
  = let dl := filter (fun f => negb (is_folder f)) files in
    let wd := snd (set_status Downloading
                     (snd (set_total_files (Z.of_nat (List.length dl)) w))) in
    match download_to_zips env dl wd with
    | (Return _, w2) => (Return tt, snd (set_status Completed w2))
    | (Raise e, w2) => (Return tt, snd (report_error e w2))
    | (Blocked, w2) => (Blocked, w2)
    end.
Proof.
  unfold try_except, download_phase. cbv zeta.
  unfold bind at 1. unfold set_total_files at 1, set_progress at 1, modify at 1.
  unfold bind at 1. unfold set_status at 1, set_progress at 1, modify at 1.
  unfold bind at 1. cbn [snd].
  unfold set_total_files, set_status, set_progress, modify. cbn [snd].
  destruct (download_to_zips env _ _) as [[u|e|] w2]; reflexivity.
Qed.

Lemma process_download_unfold env w :
  process_download env w
  = match connect env w with
    | (Return _, wc) =>
        match list_all_files env wc with
        | (Return files, wl) =>
            try_except (download_phase env files) report_error wl
        | (Raise e, wl) => report_error e wl
        | (Blocked, wl) => (Blocked, wl)
        end
    | (Raise e, wc) => report_error e wc
    | (Blocked, wc) => (Blocked, wc)
    end.
Proof.
  rewrite process_download_phases.
  unfold try_except at 1. unfold bind at 1.
  destruct (connect env w) as [[u|e|] wc]; try reflexivity.
  unfold bind at 1.
  now destruct (list_all_files env wc) as [[files|e|] wl].
Qed.



(** *** Requests and entries *)

Lemma loop_body_media_log env jd i file w :
  media_log (snd (loop_body env jd i file w))
  = match fst (loop_body env jd i file w) with
    | Return _ =>
        (media_log w
         ++ (if downloadable file then [media_request file] else []))%list
    | _ => media_log w
    end.
Proof.
  destruct (loop_body_cases env jd i file w)
    as [(-> & ->)|[(-> & _ & ->)|[(-> & _ & _ & _ & ->)|(_ & _ & e & _ & ->)]]];
    cbn [fst snd]; rewrite ?after_fetch_media_log.
  - cbn. now rewrite app_nil_r.
  - reflexivity.
  - cbn. now rewrite (proj1 (proj2 (proj2 (close_writer_frame w)))).
  - now rewrite (proj1 (proj2 (proj2 (close_writer_frame w)))).
Qed.


Lemma all_entries_close_writer w : all_entries (close_writer w) = all_entries w.
Proof.
  unfold all_entries.
  now rewrite (proj1 (proj2 (proj2 (proj2 (close_writer_frame w))))).
Qed.

Lemma all_entries_open_zip jd w : all_entries (open_zip jd w) = all_entries w.
Proof.
  unfold all_entries. cbn. rewrite map_app, concat_app. cbn.
  now rewrite app_nil_r.
Qed.



(** A fetch that ends in an error writes nothing. *)
Lemma after_fetch_error env file w e :
  reported_error (media env (media_request file)) = Some e ->
  after_fetch env file w = with_media_request w (media_request file).
Proof. unfold after_fetch. now intros ->. Qed.

Lemma after_fetch_empty env file w :
  whole_content (media env (media_request file)) = [] ->
  after_fetch env file w = with_media_request w (media_request file).
Proof.
  unfold after_fetch. intros ->. now destruct (reported_error _).
Qed.





(** *** Failures inside a turn of the loop *)

Lemma close_error_source env w e :
  close_error env w = Some e -> exists p, zipfile_close env p = Some e.
Proof.
  unfold close_error.
  destruct (zip_writer (vars w)) as [h|]; [|discriminate].
  destruct (nth_error (zips w) h) as [z|]; [|discriminate].
  destruct (fp_open z); [|discriminate].
  intros H. now exists (zip_path z).
Qed.

(** An exception that leaves a turn of the loop was raised by the opening
    or the closing of an archive. *)
Lemma loop_body_raises env jd i file w e :
  fst (loop_body env jd i file w) = Raise e ->
  exists p, zipfile_open env p = Some e \/ zipfile_close env p = Some e.
Proof.
  destruct (loop_body_cases env jd i file w)
    as [(_ & ->)|[(_ & _ & ->)|[(_ & _ & _ & _ & ->)
       |(_ & _ & e' & [Hc|Ho] & ->)]]];
    cbn [fst]; try discriminate; intros H; injection H as <-.
  - destruct (close_error_source env w e' Hc) as [p Hp]. exists p. now right.
  - eexists. left. exact Ho.
Qed.

Lemma loop_body_failed_fetch env jd i file w e :
  reported_error (media env (media_request file)) = Some e ->
  all_entries (snd (loop_body env jd i file w)) = all_entries w.
Proof.
  intros He.
  destruct (loop_body_cases env jd i file w)
    as [(_ & ->)|[(_ & _ & ->)|[(_ & _ & _ & _ & ->)|(_ & _ & e' & _ & ->)]]];
    cbn [fst snd]; rewrite ?(after_fetch_error env file _ e He).
  - reflexivity.
  - reflexivity.
  - change (all_entries (open_zip jd (close_writer w)) = all_entries w).
    now rewrite all_entries_open_zip, all_entries_close_writer.
  - apply all_entries_close_writer.
Qed.

(** When archives can be opened and closed the loop visits every record,
    whatever the fetches and the writes do. *)
Lemma for_files_returns env jd files :
  (forall p, zipfile_open env p = None) ->
  (forall p, zipfile_close env p = None) ->
  forall i w,
    fst (for_files env jd i files w) = Return tt
    /\ media_log (snd (for_files env jd i files w))
       = (media_log w ++ map media_request (filter downloadable files))%list.
Proof.
  intros Hopen Hclose.
  induction files as [|file rest IH]; intros i w.
  - cbn. now rewrite app_nil_r.
  - cbn [for_files]. unfold bind.
    pose proof (loop_body_raises env jd i file w) as Hr.
    pose proof (loop_body_not_blocked env jd i file w) as Hb.
    pose proof (loop_body_media_log env jd i file w) as Hm.
    destruct (loop_body env jd i file w) as [[u|e|] w1]; cbn [fst snd] in *.
    + destruct (IH (i + 1) w1) as [-> ->]. split; [reflexivity|].
      rewrite Hm. cbn [filter].
      destruct (downloadable file); cbn [map]; now rewrite <- app_assoc.
    + destruct (Hr e eq_refl) as [p [Hp|Hp]];
        [rewrite Hopen in Hp|rewrite Hclose in Hp]; discriminate.
    + congruence.
Qed.

(* ================================================================= *)
(** ** The claims about the volume writer *)



Example process_download_mixed :
  snapshot (snd (process_download mixed_env
                   (initial_world (started_session "job"))))
  = mkProgress 4 4 "broken" Completed ["drive_backup_001.zip"] ""
  /\ zips (snd (process_download mixed_env
                  (initial_world (started_session "job"))))
     = [mkZip "downloads/job/drive_backup_001.zip"
              [("notes.txt", [Byte.x68; Byte.x69])] false]
  /\ media_log (snd (process_download mixed_env
                       (initial_world (started_session "job"))))
     = [get_media "2"; get_media "3"; get_media "4"].
Proof. repeat split. Qed.

(** C7. [download_to_zips] returns or raises, and on either way out every
    archive it has opened is closed: the one [zip_writer] refers to is
    closed in the [finally] clause, the earlier ones when their successor
    was started. *)
Theorem download_to_zips_always_closes (env : Env) (files : list FileRecord)
    (w : World) :
  all_closed w ->
  (fst (download_to_zips env files w) = Return tt
   \/ exists e, fst (download_to_zips env files w) = Raise e)
  /\ all_closed (snd (download_to_zips env files w)).
Proof.
  intros C. destruct (download_to_zips_closes env files w C) as [Hc Hb].
  split; [|exact Hc].
  destruct (fst (download_to_zips env files w)) as [[]|e|];
    [now left|right; now exists e|congruence].
Qed.

Example download_to_zips_full_disk :
  download_to_zips full_disk_env [f_small; f_large]
                   (initial_world (started_session "job"))
  = (Raise (Exception "disk full"),
     mkWorld
       (mkSession (Some (mkCredentials false)) "state" "job" 0
          (mkProgress 0 1 "small" Starting ["drive_backup_001.zip"] ""))
       [mkZip "downloads/job/drive_backup_001.zip" [("small", [Byte.x01])] false]
       ["downloads/job"]
       (mkLocals 2 1 (Some 0%nat))
       [] [get_media "1"]).
Proof. reflexivity. Qed.

Lemma download_to_zips_always_closes_witness :
  all_closed (snd (download_to_zips full_disk_env [f_small; f_large]
                     (initial_world (started_session "job")))).
Proof.
  apply (download_to_zips_always_closes full_disk_env [f_small; f_large]
           (initial_world (started_session "job"))).
  intros z Hz. destruct Hz.
Defined.

(** C4. A record that may not be downloaded only moves the counter: no
    request, no entry, no byte.  A fetch that ends in an error, the
    absent file included, leaves the entries of all archives as they
    were and the turn still counts the record.  No exception of a fetch
    or of a write leaves a turn of the loop: what leaves it was raised by
    the opening or the closing of an archive.  So, when archives can be
    opened and closed, the loop returns having asked for every
    downloadable record in turn, whatever the fetches and writes did. *)
Theorem per_file_failures_tolerated (env : Env) (jd : string) :
  (forall i file w,
      canDownload file = Some false ->
      loop_body env jd i file w = (Return tt, mark_processed i w)
      /\ zips (mark_processed i w) = zips w
      /\ vars (mark_processed i w) = vars w
      /\ media_log (mark_processed i w) = media_log w
      /\ processed_files (snapshot (mark_processed i w)) = i + 1)
  /\ (forall i file w e,
      reported_error (media env (media_request file)) = Some e ->
      all_entries (snd (loop_body env jd i file w)) = all_entries w
      /\ (fst (loop_body env jd i file w) = Return tt ->
          processed_files (snapshot (snd (loop_body env jd i file w))) = i + 1))
  /\ (forall i file w e,
      fst (loop_body env jd i file w) = Raise e ->
      exists p, zipfile_open env p = Some e \/ zipfile_close env p = Some e)
  /\ ((forall p, zipfile_open env p = None) ->
      (forall p, zipfile_close env p = None) ->
      forall files i w,
        fst (for_files env jd i files w) = Return tt
        /\ media_log (snd (for_files env jd i files w))
           = (media_log w ++ map media_request (filter downloadable files))%list
        /\ (files <> [] ->
            processed_files (snapshot (snd (for_files env jd i files w)))
            = i + Z.of_nat (List.length files))).
Proof.
  split; [|split; [|split]].
  - intros i file w Hcd. split; [|now repeat split].
    rewrite loop_body_run. unfold downloadable. now rewrite Hcd.
  - intros i file w e He.
    split; [now apply (loop_body_failed_fetch env jd i file w e)|].
    intros Hret.
    destruct (loop_body_progress env jd i file w) as [_ [[_ H]|(e' & H & _)]];
      [exact H|congruence].
  - intros i file w e. apply loop_body_raises.
  - intros Hopen Hclose files i w.
    destruct (for_files_returns env jd files Hopen Hclose i w) as [Hret Hlog].
    split; [exact Hret|]. split; [exact Hlog|].
    intros Hne.
    destruct (for_files_progress env jd files i w) as (_ & H & _).
    now apply H.
Qed.

Lemma per_file_failures_tolerated_witness :
  fst (for_files mixed_env "downloads/job" 0
         [f_locked; f_gone; f_notes; f_broken]
         (initial_world (started_session "job")))
  = Return tt.
Proof.
  apply (proj2 (proj2 (proj2
           (per_file_failures_tolerated mixed_env "downloads/job")))
           (fun _ => eq_refl) (fun _ => eq_refl)
           [f_locked; f_gone; f_notes; f_broken] 0
           (initial_world (started_session "job"))).
Defined.

(** *** After the listing *)

Lemma connect_returns env w c :
  token (session w) = Some c ->
  (expired c = true -> token_refresh env = None) ->
  build env = None ->
  fst (connect env w) = Return tt.
Proof.
  intros Htok Href Hbuild.
  unfold connect, bind, set_status, set_progress, set_token, gets, modify,
    call, raise, ret.
  cbn [session with_progress with_session token].
  rewrite Htok, Hbuild.
  destruct (expired c); [now rewrite Href|reflexivity].
Qed.




(** *** Turns that start an archive, and turns that write *)

Lemma loop_body_opens env jd i file w :
  downloadable file = true ->
  needs_new_zip (vars w) (file_size_of file) = true ->
  close_error env w = None ->
  zipfile_open env (path_join jd (zip_filename_of (zip_index (vars w)))) = None ->
  loop_body env jd i file w
  = (Return tt,
     after_fetch env file
       (mark_processed i (mark_current file (open_zip jd (close_writer w))))).
Proof.
  intros Hd Hn Hc Ho.
  rewrite loop_body_run, Hd, Hn, start_new_zip_run, Hc, Ho. reflexivity.
Qed.

Lemma loop_body_stays env jd i file w :
  downloadable file = true ->
  needs_new_zip (vars w) (file_size_of file) = false ->
  loop_body env jd i file w
  = (Return tt, after_fetch env file (mark_processed i (mark_current file w))).
Proof.
  intros Hd Hn. rewrite loop_body_run, Hd, Hn. reflexivity.
Qed.

Lemma after_fetch_written env file w h z :
  zip_writer (vars w) = Some h ->
  nth_error (zips w) h = Some z ->
  fp_open z = true ->
  reported_error (media env (media_request file)) = None ->
  whole_content (media env (media_request file)) <> [] ->
  zipfile_writestr env (zip_path z) (get_safe_filename file)
    (whole_content (media env (media_request file))) = None ->
  after_fetch env file w
  = write_entry h (get_safe_filename file)
      (whole_content (media env (media_request file)))
      (with_media_request w (media_request file)).
Proof.
  intros Hw Hz Ho He Hc Hwr. unfold after_fetch.
  rewrite He.
  destruct (whole_content _) as [|b c]; [congruence|].
  now rewrite Hw, Hz, Ho, Hwr.
Qed.

Lemma needs_new_zip_iff l file_size :
  needs_new_zip l file_size = true
  <-> zip_writer l = None \/ current_zip_size l + file_size > max_zip_size.
Proof.
  unfold needs_new_zip.
  destruct (zip_writer l) as [h|].
  - rewrite Z.gtb_gt. split; [now right|]. intros [H|H]; [discriminate|exact H].
  - split; [now left|reflexivity].
Qed.

(** The running total after the inner [try] block: what it was, or what
    it was plus the length of the content written. *)
Lemma after_fetch_size env file w :
  (zips (after_fetch env file w) = zips w
   /\ current_zip_size (vars (after_fetch env file w))
      = current_zip_size (vars w))
  \/ (exists h,
        zip_writer (vars w) = Some h
        /\ zips (after_fetch env file w)
           = update_nth h
               (add_entry (get_safe_filename file)
                  (whole_content (media env (media_request file))))
               (zips w)
        /\ current_zip_size (vars (after_fetch env file w))
           = current_zip_size (vars w)
             + len (whole_content (media env (media_request file)))).
Proof.
  destruct (after_fetch_zips env file w)
    as [H|(h & z & Hw & _ & _ & _ & _ & _ & ->)].
  - left. split; [exact H|].
    unfold after_fetch in *.
    destruct (reported_error _); [reflexivity|].
    destruct (whole_content _) as [|b c]; [reflexivity|].
    destruct (zip_writer (vars w)) as [h|]; [|reflexivity].
    destruct (nth_error (zips w) h) as [z|] eqn:Hz; [|reflexivity].
    destruct (fp_open z); [|reflexivity].
    destruct (zipfile_writestr env _ _ _); [reflexivity|].
    exfalso. cbn in H.
    assert (Hn : nth_error (update_nth h
                   (add_entry (get_safe_filename file) (b :: c)) (zips w)) h
                 = Some (add_entry (get_safe_filename file) (b :: c) z)).
    { rewrite nth_error_update_nth, Nat.eqb_refl, Hz. reflexivity. }
    rewrite H, Hz in Hn. injection Hn as Hn.
    apply (f_equal (fun z => List.length (entries z))) in Hn.
    cbn in Hn. rewrite length_app in Hn. cbn in Hn. lia.
  - right. exists h. now repeat split.
Qed.

(** *** The names of the archives *)

Lemma zip_names_from_S first n :
  zip_names_from first (S n)
  = (zip_names_from first n ++ [zip_filename_of (first + N.of_nat n)])%list.
Proof. unfold zip_names_from. now rewrite seq_S, map_app. Qed.

Lemma map_seq_shift {A} (g : nat -> A) n : forall m a,
  map g (seq (n + a) m) = map (fun k => g (n + k)%nat) (seq a m).
Proof.
  induction m as [|m IH]; intros a; cbn; [reflexivity|].
  f_equal. rewrite <- IH. f_equal. f_equal. lia.
Qed.

Lemma started_zips_trans n m w1 w2 w3 :
  started_zips n w1 w2 -> started_zips m w2 w3 -> started_zips (n + m) w1 w3.
Proof.
  intros (I1 & F1 & L1) (I2 & F2 & L2). repeat split.
  - rewrite I2, I1. lia.
  - rewrite F2, F1, I1, <- app_assoc. f_equal.
    unfold zip_names_from. rewrite seq_app, map_app. f_equal.
    cbn [Nat.add].
    replace (seq n m) with (seq (n + 0) m) by (f_equal; lia).
    rewrite map_seq_shift.
    apply map_ext. intros k. f_equal. lia.
  - lia.
Qed.

Lemma started_zips_refl w : started_zips 0 w w.
Proof.
  repeat split.
  - cbn. lia.
  - cbn. now rewrite app_nil_r.
  - lia.
Qed.

Lemma loop_body_started env jd i file w :
  exists n, started_zips n w (snd (loop_body env jd i file w)).
Proof.
  assert (Hc : started_zips 0 w (close_writer w)).
  { unfold started_zips, snapshot, close_writer.
    destruct (zip_writer (vars w)) as [h|]; [|apply started_zips_refl].
    cbn. rewrite update_nth_length, app_nil_r. repeat split; lia. }
  assert (Ha : forall w0, started_zips 0 w0
                 (after_fetch env file (mark_processed i (mark_current file w0)))).
  { intros w0. unfold started_zips, snapshot.
    rewrite after_fetch_session.
    rewrite (proj2 (after_fetch_vars env file _)).
    cbn [zip_names_from seq map]. rewrite app_nil_r, Nat.add_0_r, N.add_0_r.
    repeat split.
    destruct (after_fetch_size env file (mark_processed i (mark_current file w0)))
      as [[-> _]|(h & _ & -> & _)]; [reflexivity|].
    now rewrite update_nth_length. }
  destruct (loop_body_cases env jd i file w)
    as [(_ & ->)|[(_ & _ & ->)|[(_ & _ & _ & _ & ->)|(_ & _ & e & _ & ->)]]];
    cbn [snd].
  - exists 0%nat. exact (started_zips_refl w).
  - exists 0%nat. apply Ha.
  - exists 1%nat.
    apply (started_zips_trans 0 1 w (close_writer w)); [exact Hc|].
    apply (started_zips_trans 1 0 _ (open_zip jd (close_writer w))); [|apply Ha].
    unfold started_zips, snapshot. cbn.
    rewrite length_app, N.add_0_r. cbn. repeat split; lia.
  - exists 0%nat. exact Hc.
Qed.

Lemma for_files_started env jd files : forall i w,
  exists n, started_zips n w (snd (for_files env jd i files w)).
Proof.
  induction files as [|file rest IH]; intros i w.
  - exists 0%nat. apply started_zips_refl.
  - cbn [for_files]. unfold bind.
    destruct (loop_body_started env jd i file w) as [n Hn].
    destruct (loop_body env jd i file w) as [[u|e|] w1]; cbn [snd] in *.
    + destruct (IH (i + 1) w1) as [m Hm].
      exists (n + m)%nat. eapply started_zips_trans; eassumption.
    + now exists n.
    + now exists n.
Qed.

(** The names [download_to_zips] adds to the progress are those of the
    indices 1, 2, 3 and so on, as many as it created archives. *)
Lemma download_to_zips_names env files w :
  exists n,
    zip_files (snapshot (snd (download_to_zips env files w)))
    = (zip_files (snapshot w) ++ zip_names_from 1 n)%list
    /\ List.length (zips (snd (download_to_zips env files w)))
       = (List.length (zips w) + n)%nat.
Proof.
  rewrite download_to_zips_run. cbv zeta.
  destruct (makedirs env _) as [e|].
  { exists 0%nat. cbn. rewrite app_nil_r. split; [reflexivity|lia]. }
  rewrite try_finally_close_run by apply for_files_not_blocked.
  cbn [snd].
  match goal with |- context [for_files env ?jd 0 files ?w0] =>
    destruct (for_files_started env jd files 0 w0) as (n & _ & Hf & Hl);
    set (w1 := snd (for_files env jd 0 files w0)) in *
  end.
  exists n. unfold snapshot in *.
  rewrite (proj1 (close_writer_frame w1)). split; [exact Hf|].
  unfold close_writer. destruct (zip_writer (vars w1)); [|exact Hl].
  cbn. now rewrite update_nth_length.
Qed.

(** *** The format of the index *)

Lemma format_03d_three_digits n :
  (n < 1000)%N -> format_03d n = three_digits n.
Proof.
  intros Hn.
  assert (H : forallb (fun k => String.eqb (format_03d (N.of_nat k))
                                           (three_digits (N.of_nat k)))
                      (seq 0 1000) = true) by (vm_compute; reflexivity).
  rewrite forallb_forall in H.
  specialize (H (N.to_nat n)). rewrite N2Nat.id in H.
  apply String.eqb_eq, H, in_seq. lia.
Qed.

(** *** Two files that do not fit into one archive *)

Lemma two_files_two_zips (env : Env) (f1 f2 : FileRecord) (s : UserSession) :
  let c1 := whole_content (media env (media_request f1)) in
  let c2 := whole_content (media env (media_request f2)) in
  let jd := path_join "downloads" (job_id s) in
  downloadable f1 = true ->
  downloadable f2 = true ->
  size f1 = Some (3 * 2 ^ 29) ->
  size f2 = Some (2 ^ 30) ->
  reported_error (media env (media_request f1)) = None ->
  reported_error (media env (media_request f2)) = None ->
  len c1 = 3 * 2 ^ 29 ->
  len c2 = 2 ^ 30 ->
  makedirs env jd = None ->
  (forall p, zipfile_open env p = None) ->
  (forall p, zipfile_close env p = None) ->
  (forall p n d, zipfile_writestr env p n d = None) ->
  fst (download_to_zips env [f1; f2] (initial_world s)) = Return tt
  /\ zips (snd (download_to_zips env [f1; f2] (initial_world s)))
     = [ mkZip (path_join jd "drive_backup_001.zip")
               [(get_safe_filename f1, c1)] false;
         mkZip (path_join jd "drive_backup_002.zip")
               [(get_safe_filename f2, c2)] false ]
  /\ zip_files (snapshot (snd (download_to_zips env [f1; f2] (initial_world s))))
     = (zip_files (progress s)
        ++ ["drive_backup_001.zip"; "drive_backup_002.zip"])%list.
Proof.
  intros c1 c2 jd D1 D2 S1 S2 E1 E2 L1 L2 Hmk Hop Hcl Hwr.
  assert (C1 : whole_content (media env (media_request f1)) = c1) by reflexivity.
  assert (C2 : whole_content (media env (media_request f2)) = c2) by reflexivity.
  assert (J : path_join "downloads" (job_id s) = jd) by reflexivity.
  clearbody c1 c2 jd.
  assert (N1 : c1 <> []) by (intros H; rewrite H in L1; discriminate L1).
  assert (N2 : c2 <> []) by (intros H; rewrite H in L2; discriminate L2).
  set (w0 := with_dir jd (with_vars (fun _ => mkLocals 1 0 None)
                                     (initial_world s))).
  set (w1 := write_entry 0 (get_safe_filename f1) c1
               (with_media_request
                  (mark_processed 0 (mark_current f1 (open_zip jd w0)))
                  (media_request f1))).
  set (w2 := write_entry 1 (get_safe_filename f2) c2
               (with_media_request
                  (mark_processed (0 + 1)
                     (mark_current f2 (open_zip jd (close_writer w1))))
                  (media_request f2))).
  assert (Hrun : for_files env jd 0 [f1; f2] w0 = (Return tt, w2)).
  { cbn [for_files]. unfold bind.
    (* the first file opens the first archive *)
    rewrite (loop_body_opens env jd 0 f1 w0 D1 eq_refl eq_refl (Hop _)).
    change (close_writer w0) with w0.
    rewrite (after_fetch_written env f1
               (mark_processed 0 (mark_current f1 (open_zip jd w0))) 0%nat
               (mkZip (path_join jd (zip_filename_of 1)) [] true)
               eq_refl eq_refl eq_refl E1);
      [|rewrite C1; exact N1|apply Hwr].
    rewrite C1. fold w1.
    (* the second file does not fit *)
    rewrite (loop_body_opens env jd (0 + 1) f2 w1 D2).
    - rewrite (after_fetch_written env f2
                 (mark_processed (0 + 1)
                    (mark_current f2 (open_zip jd (close_writer w1)))) 1%nat
                 (mkZip (path_join jd (zip_filename_of 2)) [] true)
                 eq_refl eq_refl eq_refl E2);
        [|rewrite C2; exact N2|apply Hwr].
      rewrite C2. reflexivity.
    - apply needs_new_zip_iff. right.
      unfold file_size_of. rewrite S2.
      change (current_zip_size (vars w1)) with (0 + len c1).
      rewrite L1. reflexivity.
    - unfold close_error. cbn -[len]. apply Hcl.
    - apply Hop. }
  rewrite download_to_zips_run. cbv zeta.
  change (job_id (session (initial_world s))) with (job_id s).
  rewrite J, Hmk.
  rewrite try_finally_close_run by apply for_files_not_blocked.
  fold w0. rewrite Hrun. cbn [fst snd].
  split; [|split].
  - unfold close_error. cbn -[len]. now rewrite Hcl.
  - reflexivity.
  - change (zip_files (snapshot (close_writer w2)))
      with ((zip_files (progress s) ++ [zip_filename_of 1])
            ++ [zip_filename_of 2])%list.
    now rewrite <- app_assoc.
Qed.

Lemma len_zero_bytes n : 0 <= n -> len (zero_bytes n) = n.
Proof.
  intros Hn. unfold len, zero_bytes. rewrite repeat_length. lia.
Qed.

(** A file that declares the size 0 is counted as 1024 bytes: after a
    file that leaves less than 1024 bytes below the ceiling it starts a
    new archive, which stays empty when the file is. *)
Lemma size_zero_two_zips (env : Env) (f1 f2 : FileRecord) (s : UserSession) :
  let c1 := whole_content (media env (media_request f1)) in
  let jd := path_join "downloads" (job_id s) in
  downloadable f1 = true ->
  downloadable f2 = true ->
  size f2 = Some 0 ->
  reported_error (media env (media_request f1)) = None ->
  max_zip_size - 1024 < len c1 ->
  whole_content (media env (media_request f2)) = [] ->
  makedirs env jd = None ->
  (forall p, zipfile_open env p = None) ->
  (forall p, zipfile_close env p = None) ->
  (forall p n d, zipfile_writestr env p n d = None) ->
  fst (download_to_zips env [f1; f2] (initial_world s)) = Return tt
  /\ zips (snd (download_to_zips env [f1; f2] (initial_world s)))
     = [ mkZip (path_join jd "drive_backup_001.zip")
               [(get_safe_filename f1, c1)] false;
         mkZip (path_join jd "drive_backup_002.zip") [] false ]
  /\ zip_files (snapshot (snd (download_to_zips env [f1; f2] (initial_world s))))
     = (zip_files (progress s)
        ++ ["drive_backup_001.zip"; "drive_backup_002.zip"])%list.
Proof.
  intros c1 jd D1 D2 S2 E1 L1 C2 Hmk Hop Hcl Hwr.
  assert (C1 : whole_content (media env (media_request f1)) = c1) by reflexivity.
  assert (J : path_join "downloads" (job_id s) = jd) by reflexivity.
  clearbody c1 jd.
  assert (N1 : c1 <> []).
  { intros H. rewrite H in L1. cbn in L1. unfold max_zip_size in L1. lia. }
  set (w0 := with_dir jd (with_vars (fun _ => mkLocals 1 0 None)
                                     (initial_world s))).
  set (w1 := write_entry 0 (get_safe_filename f1) c1
               (with_media_request
                  (mark_processed 0 (mark_current f1 (open_zip jd w0)))
                  (media_request f1))).
  set (w2 := with_media_request
               (mark_processed (0 + 1)
                  (mark_current f2 (open_zip jd (close_writer w1))))
               (media_request f2)).
  assert (Hrun : for_files env jd 0 [f1; f2] w0 = (Return tt, w2)).
  { cbn [for_files]. unfold bind.
    rewrite (loop_body_opens env jd 0 f1 w0 D1 eq_refl eq_refl (Hop _)).
    change (close_writer w0) with w0.
    rewrite (after_fetch_written env f1
               (mark_processed 0 (mark_current f1 (open_zip jd w0))) 0%nat
               (mkZip (path_join jd (zip_filename_of 1)) [] true)
               eq_refl eq_refl eq_refl E1);
      [|rewrite C1; exact N1|apply Hwr].
    rewrite C1. fold w1.
    rewrite (loop_body_opens env jd (0 + 1) f2 w1 D2).
    - now rewrite (after_fetch_empty env f2 _ C2).
    - apply needs_new_zip_iff. right.
      unfold file_size_of. rewrite S2.
      change (current_zip_size (vars w1)) with (0 + len c1).
      change (int_or (get (Some 0) 0) 1024) with 1024. lia.
    - unfold close_error. cbn -[len]. apply Hcl.
    - apply Hop. }
  rewrite download_to_zips_run. cbv zeta.
  change (job_id (session (initial_world s))) with (job_id s).
  rewrite J, Hmk.
  rewrite try_finally_close_run by apply for_files_not_blocked.
  fold w0. rewrite Hrun. cbn [fst snd].
  split; [|split].
  - unfold close_error. cbn -[len]. now rewrite Hcl.
  - reflexivity.
  - change (zip_files (snapshot (close_writer w2)))
      with ((zip_files (progress s) ++ [zip_filename_of 1])
            ++ [zip_filename_of 2])%list.
    now rewrite <- app_assoc.
Qed.

Lemma open_zip_effect jd w :
  zips (open_zip jd w)
  = (zips w
     ++ [mkZip (path_join jd (zip_filename_of (zip_index (vars w)))) [] true])%list
  /\ vars (open_zip jd w)
     = mkLocals (zip_index (vars w) + 1) 0 (Some (List.length (zips w)))
  /\ zip_files (snapshot (open_zip jd w))
     = (zip_files (snapshot w) ++ [zip_filename_of (zip_index (vars w))])%list.
Proof. now repeat split. Qed.

(** C1, as the code has it.  The ceiling is 2 GiB.  A turn of the loop
    for a downloadable record starts a new archive exactly when no
    archive is open or the running total plus the size counted for the
    file would exceed the ceiling; the size counted is the declared
    size, and 1024 when the record declares none or declares 0
    ([int(...) or 1024]); it then closes the
    current archive, opens the next one under the name
    [drive_backup_NNN.zip], [NNN] being the index in three digits,
    appends that name to [zip_files], moves the index on by one and
    resets the running total; the indices start at 1.  The running total
    grows by the length of the content written.  Two downloadable files
    of 1.5 GiB and 1 GiB, declared and actual, end in two archives with
    one file each. *)
Theorem rollover_policy :
  max_zip_size = 2147483648
  /\ (forall l file_size,
        needs_new_zip l file_size = true
        <-> zip_writer l = None
            \/ current_zip_size l + file_size > max_zip_size)
  /\ (forall file,
        (size file = None -> file_size_of file = 1024)
        /\ (size file = Some 0 -> file_size_of file = 1024)
        /\ (forall n, size file = Some n -> n <> 0 -> file_size_of file = n))
  /\ (forall env jd i file w,
        downloadable file = true ->
        (needs_new_zip (vars w) (file_size_of file) = false ->
         loop_body env jd i file w
         = (Return tt,
            after_fetch env file (mark_processed i (mark_current file w))))
        /\ (needs_new_zip (vars w) (file_size_of file) = true ->
            close_error env w = None ->
            zipfile_open env
              (path_join jd (zip_filename_of (zip_index (vars w)))) = None ->
            loop_body env jd i file w
            = (Return tt,
               after_fetch env file
                 (mark_processed i
                    (mark_current file (open_zip jd (close_writer w)))))))
  /\ (forall w,
        only_writer_open w ->
        all_closed (close_writer w)
        /\ vars (close_writer w) = vars w
        /\ map entries (zips (close_writer w)) = map entries (zips w))
  /\ (forall jd w,
        zips (open_zip jd w)
        = (zips w
           ++ [mkZip (path_join jd (zip_filename_of (zip_index (vars w))))
                     [] true])%list
        /\ vars (open_zip jd w)
           = mkLocals (zip_index (vars w) + 1) 0 (Some (List.length (zips w)))
        /\ zip_files (snapshot (open_zip jd w))
           = (zip_files (snapshot w)
              ++ [zip_filename_of (zip_index (vars w))])%list)
  /\ (forall n,
        zip_filename_of n = "drive_backup_" ++ format_03d n ++ ".zip"
        /\ ((n < 1000)%N -> format_03d n = three_digits n))
  /\ (forall env files w,
        exists n,
          zip_files (snapshot (snd (download_to_zips env files w)))
          = (zip_files (snapshot w) ++ zip_names_from 1 n)%list
          /\ List.length (zips (snd (download_to_zips env files w)))
             = (List.length (zips w) + n)%nat)
  /\ (forall env file w,
        (zips (after_fetch env file w) = zips w
         /\ current_zip_size (vars (after_fetch env file w))
            = current_zip_size (vars w))
        \/ (exists h,
              zip_writer (vars w) = Some h
              /\ zips (after_fetch env file w)
                 = update_nth h
                     (add_entry (get_safe_filename file)
                        (whole_content (media env (media_request file))))
                     (zips w)
              /\ current_zip_size (vars (after_fetch env file w))
                 = current_zip_size (vars w)
                   + len (whole_content (media env (media_request file)))))
  /\ (forall env f1 f2 s,
        downloadable f1 = true ->
        downloadable f2 = true ->
        size f1 = Some (3 * 2 ^ 29) ->
        size f2 = Some (2 ^ 30) ->
        reported_error (media env (media_request f1)) = None ->
        reported_error (media env (media_request f2)) = None ->
        len (whole_content (media env (media_request f1))) = 3 * 2 ^ 29 ->
        len (whole_content (media env (media_request f2))) = 2 ^ 30 ->
        makedirs env (path_join "downloads" (job_id s)) = None ->
        (forall p, zipfile_open env p = None) ->
        (forall p, zipfile_close env p = None) ->
        (forall p n d, zipfile_writestr env p n d = None) ->
        fst (download_to_zips env [f1; f2] (initial_world s)) = Return tt
        /\ zips (snd (download_to_zips env [f1; f2] (initial_world s)))
           = [ mkZip (path_join (path_join "downloads" (job_id s))
                                "drive_backup_001.zip")
                     [(get_safe_filename f1,
                       whole_content (media env (media_request f1)))] false;
               mkZip (path_join (path_join "downloads" (job_id s))
                                "drive_backup_002.zip")
                     [(get_safe_filename f2,
                       whole_content (media env (media_request f2)))] false ]
        /\ zip_files (snapshot (snd (download_to_zips env [f1; f2]
                                       (initial_world s))))
           = (zip_files (progress s)
              ++ ["drive_backup_001.zip"; "drive_backup_002.zip"])%list).
Proof.
  split; [reflexivity|].
  split; [exact needs_new_zip_iff|].
  split.
  { intros file. unfold file_size_of, int_or. split; [|split].
    - now intros ->.
    - now intros ->.
    - intros n -> Hn. cbn. now destruct (Z.eqb_spec n 0). }
  split.
  { intros env jd i file w Hd. split.
    - now apply loop_body_stays.
    - now apply loop_body_opens. }
  split.
  { intros w J. split; [now apply all_closed_close_writer|].
    destruct (close_writer_frame w) as (_ & Hv & _ & He & _). now split. }
  split; [exact open_zip_effect|].
  split.
  { intros n. split; [reflexivity|apply format_03d_three_digits]. }
  split; [exact download_to_zips_names|].
  split; [exact after_fetch_size|].
  intros env f1 f2 s. exact (two_files_two_zips env f1 f2 s).
Qed.

Lemma rollover_policy_witness :
  fst (download_to_zips large_files_env [f_first; f_second]
         (initial_world (started_session "job")))
  = Return tt.
Proof.
  refine (proj1
            (proj2 (proj2 (proj2 (proj2 (proj2 (proj2 (proj2 (proj2 (proj2
               rollover_policy))))))))
               large_files_env f_first f_second (started_session "job")
               eq_refl eq_refl eq_refl eq_refl eq_refl eq_refl _ _ eq_refl
               (fun _ => eq_refl) (fun _ => eq_refl) (fun _ _ _ => eq_refl))).
  - change (len (zero_bytes (3 * 2 ^ 29)) = 3 * 2 ^ 29).
    apply len_zero_bytes. lia.
  - change (len (zero_bytes (2 ^ 30)) = 2 ^ 30).
    apply len_zero_bytes. lia.
Defined.

(** C1 as the specification words it fails: the first file leaves the
    running total at 1000 bytes below the ceiling, the second declares
    the size 0, so that the total and the declared size together stay
    under the ceiling; the code counts the size 0 as 1024 bytes and
    starts a second archive. *)
Lemma declared_size_zero_starts_new_zip :
  size f_empty = Some 0
  /\ len (whole_content (media nearly_full_env (media_request f_nearly_full)))
     + 0 <= max_zip_size
  /\ zips (snd (download_to_zips nearly_full_env [f_nearly_full; f_empty]
                  (initial_world (started_session "job"))))
     = [ mkZip "downloads/job/drive_backup_001.zip"
               [("nearly_full.bin", zero_bytes (max_zip_size - 1000))] false;
         mkZip "downloads/job/drive_backup_002.zip" [] false ]
  /\ zip_files (snapshot (snd (download_to_zips nearly_full_env
                                 [f_nearly_full; f_empty]
                                 (initial_world (started_session "job")))))
     = ["drive_backup_001.zip"; "drive_backup_002.zip"].
Proof.
  assert (L : len (zero_bytes (max_zip_size - 1000)) = max_zip_size - 1000).
  { apply len_zero_bytes. unfold max_zip_size. lia. }
  split; [reflexivity|].
  split.
  { change (len (zero_bytes (max_zip_size - 1000)) + 0 <= max_zip_size).
    rewrite L. lia. }
  refine (proj2 (size_zero_two_zips nearly_full_env f_nearly_full f_empty
                   (started_session "job") eq_refl eq_refl eq_refl eq_refl _
                   eq_refl eq_refl (fun _ => eq_refl) (fun _ => eq_refl)
                   (fun _ _ _ => eq_refl))).
  change (max_zip_size - 1024 < len (zero_bytes (max_zip_size - 1000))).
  rewrite L. lia.
Qed.

(** C10. The archive is opened, and its name appended to [zip_files],
    before the content is asked for: a turn in which the opening fails
    sends no request, and an inventory of one downloadable file whose
    fetch brings nothing (an error, the absent file included, or an empty
    content) leaves the name of the first archive in the progress and an
    archive without entries behind. *)
Theorem empty_volume_possible (env : Env) (file : FileRecord) (s : UserSession) :
  downloadable file = true ->
  (reported_error (media env (media_request file)) <> None
   \/ whole_content (media env (media_request file)) = []) ->
  makedirs env (path_join "downloads" (job_id s)) = None ->
  zipfile_open env (path_join (path_join "downloads" (job_id s))
                              "drive_backup_001.zip") = None ->
  zipfile_close env (path_join (path_join "downloads" (job_id s))
                               "drive_backup_001.zip") = None ->
  fst (download_to_zips env [file] (initial_world s)) = Return tt
  /\ zip_files (snapshot (snd (download_to_zips env [file] (initial_world s))))
     = (zip_files (progress s) ++ ["drive_backup_001.zip"])%list
  /\ zips (snd (download_to_zips env [file] (initial_world s)))
     = [mkZip (path_join (path_join "downloads" (job_id s))
                         "drive_backup_001.zip") [] false]
  /\ media_log (snd (download_to_zips env [file] (initial_world s)))
     = [media_request file]
  /\ (forall jd i f w e,
        fst (loop_body env jd i f w) = Raise e ->
        media_log (snd (loop_body env jd i f w)) = media_log w).
Proof.
  intros Hd Hnothing Hmk Hop Hcl.
  set (jd := path_join "downloads" (job_id s)) in *.
  set (w0 := with_dir jd (with_vars (fun _ => mkLocals 1 0 None)
                                     (initial_world s))).
  assert (Hrun : for_files env jd 0 [file] w0
                 = (Return tt,
                    with_media_request
                      (mark_processed 0 (mark_current file (open_zip jd w0)))
                      (media_request file))).
  { cbn [for_files]. unfold bind.
    rewrite (loop_body_opens env jd 0 file w0 Hd eq_refl eq_refl Hop).
    change (close_writer w0) with w0.
    destruct Hnothing as [He|Hc].
    - destruct (reported_error (media env (media_request file))) as [e|] eqn:E;
        [|congruence].
      now rewrite (after_fetch_error env file _ e E).
    - now rewrite (after_fetch_empty env file _ Hc). }
  rewrite download_to_zips_run. cbv zeta.
  change (path_join "downloads" (job_id (session (initial_world s)))) with jd.
  rewrite Hmk.
  rewrite try_finally_close_run by apply for_files_not_blocked.
  fold w0. rewrite Hrun. cbn [fst snd].
  split; [|split; [|split; [|split]]].
  - unfold close_error. cbn -[path_join]. now rewrite Hcl.
  - reflexivity.
  - reflexivity.
  - reflexivity.
  - intros jd' i f w e He.
    rewrite loop_body_media_log. now rewrite He.
Qed.

Lemma empty_volume_possible_witness :
  zips (snd (download_to_zips mixed_env [f_gone]
               (initial_world (started_session "job"))))
  = [mkZip "downloads/job/drive_backup_001.zip" [] false].
Proof.
  refine (proj1 (proj2 (proj2
            (empty_volume_possible mixed_env f_gone (started_session "job")
               eq_refl _ eq_refl eq_refl eq_refl)))).
  left. cbn. discriminate.
Defined.

(* ================================================================= *)
(** ** The retention sweep *)

Lemma dict_lookup_In sid s d :
  dict_lookup sid d = Some s -> In (sid, s) d.
Proof.
  induction d as [|[k v] d IH]; cbn; [discriminate|].
  destruct (String.eqb_spec sid k) as [->|Hne].
  - intros H. injection H as ->. now left.
  - intros H. right. now apply IH.
Qed.

Lemma In_dict_lookup sid s d :
  NoDup (map fst d) -> In (sid, s) d -> dict_lookup sid d = Some s.
Proof.
  induction d as [|[k v] d IH]; cbn; intros Hnd Hin; [destruct Hin|].
  inversion Hnd as [|? ? Hk Hnd']; subst.
  destruct Hin as [Heq|Hin].
  - injection Heq as -> ->. now rewrite String.eqb_refl.
  - destruct (String.eqb_spec sid k) as [->|Hne]; [|now apply IH].
    exfalso. apply Hk. now apply (in_map fst) in Hin.
Qed.

Lemma dict_lookup_del_other sid k d :
  sid <> k -> dict_lookup sid (dict_del k d) = dict_lookup sid d.
Proof.
  intros Hne. unfold dict_del.
  induction d as [|[k' v] d IH]; cbn; [reflexivity|].
  destruct (String.eqb_spec k k') as [->|Hk]; cbn.
  - destruct (String.eqb_spec sid k'); [contradiction|exact IH].
  - now rewrite IH.
Qed.

Lemma dict_del_absent sid d :
  dict_lookup sid d = None -> dict_del sid d = d.
Proof.
  unfold dict_del.
  induction d as [|[k v] d IH]; cbn; [reflexivity|].
  destruct (String.eqb sid k); [discriminate|].
  intros H. cbn. now rewrite IH.
Qed.

Lemma remove_session_sessions srv sid :
  sessions (remove_session srv sid) = dict_del sid (sessions srv).
Proof.
  unfold remove_session.
  destruct (dict_lookup sid (sessions srv)) as [s|] eqn:Hl; [reflexivity|].
  now rewrite dict_del_absent.
Qed.

Lemma fold_remove_sessions keys : forall srv,
  sessions (fold_left remove_session keys srv)
  = filter (fun kv => negb (existsb (String.eqb (fst kv)) keys)) (sessions srv).
Proof.
  induction keys as [|k keys IH]; intros srv; cbn [fold_left existsb].
  - induction (sessions srv) as [|kv d IHd]; [reflexivity|].
    cbn in *. now f_equal.
  - rewrite IH, remove_session_sessions. unfold dict_del.
    induction (sessions srv) as [|[k' v] d IHd]; cbn; [reflexivity|].
    rewrite (String.eqb_sym k' k).
    destruct (String.eqb k k'); cbn; [exact IHd|].
    destruct (existsb (String.eqb k') keys); cbn; now rewrite IHd.
Qed.

Lemma expired_key now srv sid s :
  NoDup (map fst (sessions srv)) ->
  In (sid, s) (sessions srv) ->
  existsb (String.eqb sid) (expired_sessions now srv) = is_expired now s.
Proof.
  intros Hnd Hin. unfold expired_sessions.
  destruct (is_expired now s) eqn:He.
  - apply existsb_exists. exists sid. split; [|apply String.eqb_refl].
    apply (in_map fst (filter _ _) (sid, s)). apply filter_In. now split.
  - destruct (existsb _ _) eqn:Hex; [|reflexivity].
    apply existsb_exists in Hex as (k & Hk & Heq).
    apply String.eqb_eq in Heq. subst k.
    apply in_map_iff in Hk as ([k s'] & Hfst & Hf). cbn in Hfst. subst k.
    apply filter_In in Hf as [Hin' He']. cbn in He'.
    pose proof (In_dict_lookup sid s' _ Hnd Hin') as H'.
    rewrite (In_dict_lookup sid s _ Hnd Hin) in H'. congruence.
Qed.

Lemma cleanup_tick_sessions now srv :
  NoDup (map fst (sessions srv)) ->
  sessions (cleanup_tick now srv)
  = filter (fun kv => negb (is_expired now (snd kv))) (sessions srv).
Proof.
  intros Hnd. unfold cleanup_tick. rewrite fold_remove_sessions.
  apply filter_ext_in. intros [sid s] Hin. cbn [fst snd].
  now rewrite (expired_key now srv sid s Hnd Hin).
Qed.

(** *** The disk *)

Lemma rmtree_In d p x : In x (rmtree d p) -> In x d.
Proof. unfold rmtree. rewrite filter_In. tauto. Qed.

Lemma remove_session_disk srv sid x :
  In x (disk (remove_session srv sid)) -> In x (disk srv).
Proof.
  unfold remove_session.
  destruct (dict_lookup sid (sessions srv)) as [s|]; [|tauto].
  cbn. destruct (path_exists _ _); [apply rmtree_In|tauto].
Qed.

Lemma fold_remove_disk keys : forall srv x,
  In x (disk (fold_left remove_session keys srv)) -> In x (disk srv).
Proof.
  induction keys as [|k keys IH]; intros srv x Hin; [exact Hin|].
  cbn in Hin. apply IH in Hin. now apply remove_session_disk in Hin.
Qed.

Lemma path_exists_shrinks d d' p :
  (forall x, In x d' -> In x d) ->
  path_exists d p = false -> path_exists d' p = false.
Proof.
  intros Hsub Hno. unfold path_exists in *.
  destruct (existsb _ d') eqn:Hex; [|reflexivity].
  apply existsb_exists in Hex as (x & Hx & Heq).
  assert (H : existsb (String.eqb (strip_slash p)) d = true).
  { apply existsb_exists. exists x. split; [now apply Hsub|exact Heq]. }
  congruence.
Qed.

Lemma path_exists_rmtree d p : path_exists (rmtree d p) p = false.
Proof.
  unfold path_exists.
  destruct (existsb _ _) eqn:Hex; [|reflexivity].
  apply existsb_exists in Hex as (x & Hx & Heq).
  apply String.eqb_eq in Heq. subst x.
  unfold rmtree in Hx. apply filter_In in Hx as [_ Hx].
  unfold is_under in Hx. now rewrite String.eqb_refl in Hx.
Qed.

Lemma remove_session_removes_dir srv sid s :
  dict_lookup sid (sessions srv) = Some s ->
  path_exists (disk (remove_session srv sid)) (job_dir_of s) = false.
Proof.
  intros Hl. unfold remove_session. rewrite Hl. cbn.
  destruct (path_exists (disk srv) (job_dir_of s)) eqn:He; [|exact He].
  apply path_exists_rmtree.
Qed.

Lemma fold_removes_dir keys : forall srv sid s,
  In sid keys ->
  dict_lookup sid (sessions srv) = Some s ->
  path_exists (disk (fold_left remove_session keys srv)) (job_dir_of s) = false.
Proof.
  induction keys as [|k keys IH]; intros srv sid s Hin Hl; [destruct Hin|].
  cbn [fold_left].
  destruct (String.eqb_spec sid k) as [->|Hne].
  - apply (path_exists_shrinks (disk (remove_session srv k))).
    + intros x. apply fold_remove_disk.
    + now apply remove_session_removes_dir.
  - destruct Hin as [Heq|Hin]; [congruence|].
    apply (IH _ sid s Hin).
    now rewrite remove_session_sessions, dict_lookup_del_other.
Qed.

Lemma dict_lookup_del_Some sid k d s :
  dict_lookup sid (dict_del k d) = Some s -> dict_lookup sid d = Some s.
Proof.
  destruct (String.eqb_spec sid k) as [->|Hne].
  - unfold dict_del. intros H. apply dict_lookup_In in H.
    apply filter_In in H as [_ H]. cbn in H.
    now rewrite String.eqb_refl in H.
  - now rewrite dict_lookup_del_other.
Qed.

Lemma fold_keeps_path keys : forall srv p,
  (forall k s, In k keys -> dict_lookup k (sessions srv) = Some s ->
               is_under (strip_slash (job_dir_of s)) p = false) ->
  In p (disk srv) ->
  In p (disk (fold_left remove_session keys srv)).
Proof.
  induction keys as [|k keys IH]; intros srv p Hout Hin; [exact Hin|].
  cbn [fold_left]. apply IH.
  - intros k' s' Hk' Hl'. apply (Hout k' s'); [now right|].
    rewrite remove_session_sessions in Hl'.
    now apply dict_lookup_del_Some in Hl'.
  - unfold remove_session.
    destruct (dict_lookup k (sessions srv)) as [s|] eqn:Hl; [|exact Hin].
    cbn. destruct (path_exists _ _); [|exact Hin].
    unfold rmtree. apply filter_In. split; [exact Hin|].
    now rewrite (Hout k s (or_introl eq_refl) Hl).
Qed.

Lemma expired_sessions_In now srv k :
  In k (expired_sessions now srv) ->
  exists s, In (k, s) (sessions srv) /\ is_expired now s = true.
Proof.
  unfold expired_sessions. intros Hk.
  apply in_map_iff in Hk as ([k' s] & Hfst & Hf). cbn in Hfst. subst k'.
  apply filter_In in Hf as [Hin He]. now exists s.
Qed.

(** C8, as the code has it.  The sweep sleeps 3600 seconds between its
    turns.  At a turn, a session is expired when its [created_at], the
    moment the session object was made, lies more than four hours back;
    the job's status and the time the job was started play no part.
    Every expired session leaves the registry, and the directory of its
    job, when the session has one, no longer exists; every other session
    stays as it is, nothing is created on the disk, and what is not
    inside the job directory of an expired session stays on the disk. *)
Theorem cleanup_tick_by_session_age (now : Z) (srv : Server) :
  NoDup (map fst (sessions srv)) ->
  cleanup_interval = 3600
  /\ (forall s, is_expired now s = true <-> now - created_at s > hours 4)
  /\ sessions (cleanup_tick now srv)
     = filter (fun kv => negb (is_expired now (snd kv))) (sessions srv)
  /\ (forall sid s,
        In (sid, s) (sessions srv) ->
        is_expired now s = true ->
        job_id s <> "" ->
        path_exists (disk (cleanup_tick now srv)) (job_dir_of s) = false)
  /\ (forall p, In p (disk (cleanup_tick now srv)) -> In p (disk srv))
  /\ (forall p,
        In p (disk srv) ->
        (forall sid s,
            In (sid, s) (sessions srv) ->
            is_expired now s = true ->
            is_under (strip_slash (job_dir_of s)) p = false) ->
        In p (disk (cleanup_tick now srv))).
Proof.
  intros Hnd.
  split; [reflexivity|].
  split; [intros s; unfold is_expired; apply Z.gtb_gt|].
  split; [now apply cleanup_tick_sessions|].
  split; [|split].
  - intros sid s Hin He _. unfold cleanup_tick.
    apply (fold_removes_dir _ srv sid s).
    + unfold expired_sessions.
      apply (in_map fst (filter _ _) (sid, s)). apply filter_In. now split.
    + now apply In_dict_lookup.
  - intros p. apply fold_remove_disk.
  - intros p Hin Hout. unfold cleanup_tick. apply fold_keeps_path; [|exact Hin].
    intros k s Hk Hl.
    destruct (expired_sessions_In now srv k Hk) as (s' & Hin' & He').
    pose proof (In_dict_lookup k s' _ Hnd Hin') as Hl'.
    rewrite Hl in Hl'. injection Hl' as ->.
    now apply (Hout k s').
Qed.

Lemma cleanup_tick_by_session_age_witness :
  sessions (cleanup_tick (hours 5) two_sessions_server)
  = filter (fun kv => negb (is_expired (hours 5) (snd kv)))
           (sessions two_sessions_server).
Proof.
  refine (proj1 (proj2 (proj2
            (cleanup_tick_by_session_age (hours 5) two_sessions_server _)))).
  repeat constructor; cbn; intuition discriminate.
Defined.

Example cleanup_tick_two_sessions :
  cleanup_tick (hours 5) two_sessions_server
  = mkServer
      [("new", mkSession (Some (mkCredentials false)) "st" "job-new" (hours 2)
                         starting_progress)]
      ["downloads"; "templates"; "downloads/job-new"].
Proof. vm_compute. reflexivity. Qed.

(** C8 as the specification words it fails: the session below is made at
    time 0 and its job is started two hours later; the turn of the sweep
    at five hours, three hours after the job was started, removes the
    session and the directory of the job. *)
Lemma job_started_three_hours_before_removed :
  In (hours 2, StartDownload "s" "job") late_start_timeline
  /\ hours 5 - hours 2 = hours 3
  /\ dict_lookup "s" (sessions (run late_start_timeline fresh_server))
     = Some (mkSession (Some (mkCredentials false)) "st" "job" 0
                       starting_progress)
  /\ path_exists (disk (run late_start_timeline fresh_server)) "downloads/job"
     = true
  /\ dict_lookup "s"
       (sessions (cleanup_tick (hours 5) (run late_start_timeline fresh_server)))
     = None
  /\ path_exists
       (disk (cleanup_tick (hours 5) (run late_start_timeline fresh_server)))
       "downloads/job"
     = false.
Proof.
  split; [cbn; tauto|].
  vm_compute. repeat split.
Qed.

(** A session that never started a job has the empty [job_id], so its job
    directory is [downloads/] itself: when it expires the sweep removes
    the whole directory, the archives of a session made three hours ago
    included. *)
Example cleanup_tick_idle_session :
  dict_lookup "s" (sessions (run idle_session_timeline fresh_server))
  = Some (mkSession (Some (mkCredentials false)) "st" "job" (hours 2)
                    starting_progress)
  /\ disk (run idle_session_timeline fresh_server)
     = ["downloads"; "templates"; "downloads/job"]
  /\ cleanup_tick (hours 5) (run idle_session_timeline fresh_server)
     = mkServer
         [("s", mkSession (Some (mkCredentials false)) "st" "job" (hours 2)
                          starting_progress)]
         ["templates"].
Proof. vm_compute. repeat split. Qed.

(* ================================================================= *)
(** ** More about the filename sanitizer and the MIME tables *)

Lemma string_forallb_app p a b :
  string_forallb p (a ++ b) = string_forallb p a && string_forallb p b.
Proof.
  induction a as [|c a IH]; cbn; [reflexivity|].
  now rewrite IH, andb_assoc.
Qed.

Lemma underscore_invalid_legal c :
  is_invalid_char (underscore_invalid c) = false.
Proof.
  destruct c as [[] [] [] [] [] [] [] []]; vm_compute; reflexivity.
Qed.

Lemma legal_name_clean s : legal_name (string_map underscore_invalid s) = true.
Proof.
  unfold legal_name.
  induction s as [|c s IH]; cbn [string_map string_forallb]; [reflexivity|].
  now rewrite underscore_invalid_legal, IH.
Qed.

(** The extensions of the table, each with its dot: legal, in lower case,
    made of the characters [endswith_lower_remove_invalid] allows. *)
Lemma export_extension_cases m ext :
  export_extension_of m = Some ext ->
  ext = "docx" \/ ext = "xlsx" \/ ext = "pptx" \/ ext = "pdf".
Proof.
  unfold export_extension_of.
  destruct (String.eqb m mime_document); [intros H; injection H as <-; auto|].
  destruct (String.eqb m mime_spreadsheet); [intros H; injection H as <-; auto|].
  destruct (String.eqb m mime_presentation); [intros H; injection H as <-; auto|].
  destruct (String.eqb m mime_drawing); [intros H; injection H as <-; auto 6|].
  discriminate.
Qed.

Lemma length_append a b :
  String.length (a ++ b) = (String.length a + String.length b)%nat.
Proof. induction a as [|c a IH]; cbn; congruence. Qed.

Lemma substring_all b : substring 0 (String.length b) b = b.
Proof. induction b as [|c b IH]; cbn; congruence. Qed.

Lemma substring_skip a b :
  substring (String.length a) (String.length b) (a ++ b) = b.
Proof. induction a as [|c a IH]; cbn; [apply substring_all|exact IH]. Qed.

Lemma endswith_app a b : endswith (a ++ b) b = true.
Proof.
  unfold endswith. rewrite length_append.
  replace (String.length a + String.length b - String.length b)%nat
    with (String.length a) by lia.
  rewrite substring_skip, String.eqb_refl.
  rewrite andb_true_r. apply Nat.leb_le. lia.
Qed.

Lemma lower_app a b : lower (a ++ b) = lower a ++ lower b.
Proof. induction a as [|c a IH]; cbn; congruence. Qed.

Lemma safe_filename_is_legal (file : FileRecord) :
  legal_name (get_safe_filename file) = true.
Proof.
  rewrite get_safe_filename_refines. unfold sanitize_spec.
  destruct (export_extension_of (mimeType file)) as [ext|] eqn:Hext;
    [|apply legal_name_clean].
  destruct (endswith _ _); [apply legal_name_clean|].
  unfold legal_name. rewrite !string_forallb_app.
  fold (legal_name (string_map underscore_invalid (name file))).
  rewrite legal_name_clean.
  destruct (export_extension_cases _ _ Hext) as [-> | [-> | [-> | ->]]]; reflexivity.
Qed.

Lemma safe_filename_ends_with_extension (file : FileRecord) (ext : string) :
  export_extension_of (mimeType file) = Some ext ->
  endswith (lower (get_safe_filename file)) ("." ++ ext) = true.
Proof.
  intros Hext.
  assert (Hchars : incl (list_ascii_of_string ("." ++ ext)) extension_chars
                   /\ lower ("." ++ ext) = "." ++ ext).
  { destruct (export_extension_cases _ _ Hext) as [-> | [-> | [-> | ->]]];
      (split; [intros d Hd; cbn in Hd; cbn; intuition auto|reflexivity]). }
  destruct Hchars as [Hincl Hlow].
  rewrite get_safe_filename_refines. unfold sanitize_spec. rewrite Hext.
  destruct (endswith (lower (name file)) ("." ++ ext)) eqn:He.
  - now rewrite endswith_lower_remove_invalid.
  - rewrite lower_app, Hlow. apply endswith_app.
Qed.


(** X3.  The name of a native document, once sanitized, ends with the
    dot and the extension of its export format, in whatever case. *)
Theorem get_safe_filename_has_extension (file : FileRecord) (ext : string) :
  export_extension_of (mimeType file) = Some ext ->
  endswith (lower (get_safe_filename file)) ("." ++ ext) = true.
Proof. apply safe_filename_ends_with_extension. Qed.

Lemma get_safe_filename_has_extension_witness :
  endswith (lower (get_safe_filename
                     (mkFile "1" "Plan: Q3/Q4" mime_presentation None None)))
           ".pptx"
  = true.
Proof.
  exact (get_safe_filename_has_extension
           (mkFile "1" "Plan: Q3/Q4" mime_presentation None None) "pptx"
           eq_refl).
Defined.

(** X4.  Sanitizing twice gives what sanitizing once gives: a name that
    went through [get_safe_filename] is not changed by it again, and no
    second extension is appended. *)
Theorem get_safe_filename_idempotent (file : FileRecord) :
  get_safe_filename
    (mkFile (file_id file) (get_safe_filename file) (mimeType file)
            (size file) (canDownload file))
  = get_safe_filename file.
Proof.
  rewrite (get_safe_filename_refines (mkFile _ _ _ _ _)).
  unfold sanitize_spec. cbn [name mimeType].
  rewrite (legal_name_fixed _ (safe_filename_is_legal file)).
  destruct (export_extension_of (mimeType file)) as [ext|] eqn:Hext;
    [|reflexivity].
  now rewrite (safe_filename_ends_with_extension file ext Hext).
Qed.

(** X5.  Every native type has an export format in the table, every export
    format of the table has an extension in the table, and no other type
    is native: the defaults of the two [dict.get] calls are never what a
    native document gets. *)
Theorem mime_tables_agree :
  (forall m, is_google_apps_file m = true <-> In m (map fst formats))
  /\ (forall m f, In (m, f) formats ->
        get_export_format m = f
        /\ exists e, In (f, e) extensions /\ get_file_extension f = e)
  /\ (forall m, is_google_apps_file m = false ->
        get_export_format m = mime_pdf
        /\ get_file_extension (get_export_format m) = "pdf").
Proof.
  split; [|split].
  - intros m. unfold is_google_apps_file.
    rewrite existsb_exists. cbn [formats map fst google_apps_types]. split.
    + intros (k & Hk & Heq). apply String.eqb_eq in Heq. now subst.
    + intros Hin. exists m. split; [exact Hin|apply String.eqb_refl].
  - intros m f Hin. cbn in Hin.
    destruct Hin as [H|[H|[H|[H|[]]]]]; injection H as <- <-;
      (split; [reflexivity|eexists; split; [|reflexivity]; cbn; auto 6]).
  - intros m Hm. apply export_extension_ordinary in Hm.
    unfold export_extension_of in Hm. unfold get_export_format, formats.
    cbn [dict_get].
    destruct (String.eqb m mime_document); [discriminate|].
    destruct (String.eqb m mime_spreadsheet); [discriminate|].
    destruct (String.eqb m mime_presentation); [discriminate|].
    destruct (String.eqb m mime_drawing); [discriminate|].
    split; reflexivity.
Qed.

(* ================================================================= *)
(** ** The names of the archives are distinct *)

Lemma append_assoc (a b c : string) : (a ++ b) ++ c = a ++ b ++ c.
Proof. induction a as [|x a IH]; cbn; congruence. Qed.

Lemma digits_fuel_app fuel : forall n acc,
  digits_fuel fuel n acc = digits_fuel fuel n "" ++ acc.
Proof.
  induction fuel as [|fuel IH]; intros n acc; cbn [digits_fuel];
    [reflexivity|].
  destruct (n / 10 =? 0)%N; [reflexivity|].
  rewrite IH, (IH _ (String _ "")), append_assoc. reflexivity.
Qed.

Lemma value_of_digits_app a : forall b acc,
  value_of_digits (a ++ b) acc = value_of_digits b (value_of_digits a acc).
Proof. induction a as [|c a IH]; intros b acc; cbn; [reflexivity|apply IH]. Qed.

Lemma digit_value d :
  (d < 10)%N -> (N_of_ascii (ascii_of_N (48 + d)) - 48 = d)%N.
Proof.
  intros Hd. rewrite N_ascii_embedding by lia. lia.
Qed.

Lemma value_of_digits_fuel fuel : forall n,
  (n < 2 ^ N.of_nat fuel)%N ->
  value_of_digits (digits_fuel fuel n "") 0 = n.
Proof.
  induction fuel as [|fuel IH]; intros n Hn.
  - cbn in *. lia.
  - cbn [digits_fuel].
    assert (Hd : (n mod 10 < 10)%N) by (apply N.mod_lt; lia).
    destruct (N.eqb_spec (n / 10) 0) as [Hz|Hnz].
    + cbn [value_of_digits]. rewrite digit_value by exact Hd.
      rewrite (N.div_mod n 10) at 2 by lia. lia.
    + rewrite digits_fuel_app, value_of_digits_app, IH.
      * cbn [value_of_digits]. rewrite digit_value by exact Hd.
        rewrite (N.div_mod n 10) at 3 by lia. lia.
      * rewrite Nat2N.inj_succ, N.pow_succ_r' in Hn.
        apply N.Div0.div_lt_upper_bound. lia.
Qed.

Lemma value_of_zeros k : forall acc,
  acc = 0%N -> value_of_digits (zeros k) acc = 0%N.
Proof.
  induction k as [|k IH]; intros acc ->; cbn; [reflexivity|].
  now apply IH.
Qed.

(** The index is read back from its three or more digits. *)
Lemma value_of_format_03d n : value_of_digits (format_03d n) 0 = n.
Proof.
  unfold format_03d, str_of_N.
  rewrite value_of_digits_app, (value_of_zeros _ 0%N eq_refl).
  apply value_of_digits_fuel.
  rewrite Nat2N.inj_succ, N2Nat.id.
  destruct (N.eq_dec n 0) as [->|Hn]; [reflexivity|].
  apply N.log2_spec. lia.
Qed.

Lemma index_of_zip_filename_of n : index_of_zip_filename (zip_filename_of n) = n.
Proof.
  unfold index_of_zip_filename, zip_filename_of.
  rewrite !length_append.
  change (String.length "drive_backup_") with 13%nat.
  change (String.length ".zip") with 4%nat.
  replace (13 + (String.length (format_03d n) + 4) - 17)%nat
    with (String.length (format_03d n)) by lia.
  change 13%nat with (String.length "drive_backup_") at 1.
  set (d := format_03d n).
  assert (H : forall a b c,
             substring (String.length a) (String.length b) (a ++ b ++ c) = b).
  { clear. intros a b c. induction a as [|x a IH]; cbn; [|exact IH].
    induction b as [|y b IHb]; cbn; [now destruct c|congruence]. }
  rewrite H. apply value_of_format_03d.
Qed.

Lemma zip_filename_of_inj a b : zip_filename_of a = zip_filename_of b -> a = b.
Proof.
  intros H. apply (f_equal index_of_zip_filename) in H.
  now rewrite !index_of_zip_filename_of in H.
Qed.

Lemma NoDup_map_injective {A B} (f : A -> B) (l : list A) :
  (forall x y, f x = f y -> x = y) -> NoDup l -> NoDup (map f l).
Proof.
  intros Hinj. induction 1 as [|x l Hx Hl IH]; cbn; constructor;
    [|exact IH].
  intros Hin. apply in_map_iff in Hin as (y & Hy & Hin).
  apply Hinj in Hy. now subst.
Qed.

Lemma zip_names_from_NoDup first n : NoDup (zip_names_from first n).
Proof.
  unfold zip_names_from.
  apply NoDup_map_injective; [|apply seq_NoDup].
  intros x y H. apply zip_filename_of_inj in H. lia.
Qed.

(** X6.  The names of the archives one call of [download_to_zips] adds to the
    progress are pairwise distinct, and the index can be read back from
    each of them: the k-th name added carries the index k. *)
Theorem download_to_zips_names_distinct (env : Env) (files : list FileRecord)
    (w : World) :
  exists added,
    zip_files (snapshot (snd (download_to_zips env files w)))
    = (zip_files (snapshot w) ++ added)%list
    /\ NoDup added
    /\ map index_of_zip_filename added
       = map N.of_nat (seq 1 (List.length added)).
Proof.
  destruct (download_to_zips_names env files w) as (n & Hn & _).
  exists (zip_names_from 1 n). split; [exact Hn|].
  split; [apply zip_names_from_NoDup|].
  unfold zip_names_from. rewrite length_map, length_seq, map_map.
  rewrite <- seq_shift, map_map. apply map_ext.
  intros k. rewrite index_of_zip_filename_of. lia.
Qed.

(* ================================================================= *)
(** ** What the archives hold *)

Lemma zip_total_add_entry filename content z :
  zip_total (add_entry filename content z) = zip_total z + len content.
Proof.
  unfold zip_total, add_entry. cbn [entries].
  induction (entries z) as [|e l IH]; cbn; [lia|].
  rewrite IH. lia.
Qed.

Lemma map_update_nth_same {A B} (g : A -> B) (f : A -> A) :
  (forall x, g (f x) = g x) ->
  forall l h, map g (update_nth h f l) = map g l.
Proof.
  intros Hg. induction l as [|x l IH]; intros [|h]; cbn; try reflexivity.
  - now rewrite Hg.
  - now rewrite IH.
Qed.

Lemma nth_error_update_nth_same {A} (f : A -> A) l h x :
  nth_error l h = Some x -> nth_error (update_nth h f l) h = Some (f x).
Proof.
  intros H. now rewrite nth_error_update_nth, Nat.eqb_refl, H.
Qed.

(** The inner [try] block, when an archive is open for it. *)
Lemma after_fetch_ready env file w h z :
  zip_writer (vars w) = Some h ->
  nth_error (zips w) h = Some z ->
  fp_open z = true ->
  (forall p n d, zipfile_writestr env p n d = None) ->
  after_fetch env file w
  = if fetched env file
    then write_entry h (get_safe_filename file)
           (whole_content (media env (media_request file)))
           (with_media_request w (media_request file))
    else with_media_request w (media_request file).
Proof.
  intros Hw Hz Ho Hwr. unfold after_fetch, fetched.
  destruct (reported_error _); [reflexivity|].
  destruct (whole_content _) as [|b c]; [reflexivity|].
  now rewrite Hw, Hz, Ho, Hwr.
Qed.

(** *** The running total *)

Lemma total_ok_after_fetch env file w :
  total_ok w -> total_ok (after_fetch env file w).
Proof.
  intros T. unfold total_ok.
  rewrite (proj1 (after_fetch_vars env file w)).
  destruct (after_fetch_zips env file w)
    as [H|(h & z & Hw & Hz & _ & _ & _ & _ & Heq)].
  - destruct (after_fetch_size env file w) as [[Hz Hs]|(h & Hw & Hz & Hs)].
    + unfold total_ok in T. rewrite Hz, Hs. exact T.
    + unfold total_ok in T. rewrite Hw in *.
      destruct T as (z & Hn & Ht).
      exists (add_entry (get_safe_filename file)
                (whole_content (media env (media_request file))) z).
      rewrite Hz, Hs, zip_total_add_entry, Ht.
      split; [now apply nth_error_update_nth_same|reflexivity].
  - unfold total_ok in T. rewrite Hw in *.
    destruct T as (z' & Hn & Ht). rewrite Hz in Hn. injection Hn as <-.
    rewrite Heq. cbn.
    exists (add_entry (get_safe_filename file)
              (whole_content (media env (media_request file))) z).
    rewrite zip_total_add_entry, Ht.
    split; [now apply nth_error_update_nth_same|reflexivity].
Qed.

Lemma total_ok_close_writer w : total_ok w -> total_ok (close_writer w).
Proof.
  unfold total_ok, close_writer.
  destruct (zip_writer (vars w)) as [h|] eqn:Hw; [|now rewrite Hw].
  cbn. rewrite Hw. intros (z & Hn & Ht).
  exists (close_zip z). split; [now apply nth_error_update_nth_same|exact Ht].
Qed.

Lemma total_ok_open_zip jd w : total_ok (open_zip jd w).
Proof.
  unfold total_ok. cbn.
  exists (mkZip (path_join jd (zip_filename_of (zip_index (vars w)))) [] true).
  split; [|reflexivity].
  rewrite nth_error_app2 by lia. now rewrite Nat.sub_diag.
Qed.

Lemma loop_body_total_ok env jd i file w :
  total_ok w -> total_ok (snd (loop_body env jd i file w)).
Proof.
  intros T.
  destruct (loop_body_cases env jd i file w)
    as [(_ & ->)|[(_ & _ & ->)|[(_ & _ & _ & _ & ->)|(_ & _ & e & _ & ->)]]];
    cbn [snd].
  - exact T.
  - apply total_ok_after_fetch. exact T.
  - apply total_ok_after_fetch.
    exact (total_ok_open_zip jd (close_writer w)).
  - now apply total_ok_close_writer.
Qed.

Lemma for_files_total_ok env jd files : forall i w,
  total_ok w -> total_ok (snd (for_files env jd i files w)).
Proof.
  induction files as [|file rest IH]; intros i w T; [exact T|].
  cbn [for_files]. unfold bind.
  pose proof (loop_body_total_ok env jd i file w T) as T1.
  destruct (loop_body env jd i file w) as [[u|e|] w1]; cbn [snd] in *;
    [now apply IH|assumption|assumption].
Qed.

(** X7.  Whatever the loop of [download_to_zips] does, after each of
    its turns and when it is left, [current_zip_size] is the number of bytes in the archive
    [zip_writer] refers to. *)
Theorem running_total_is_archive_size (env : Env) (jd : string)
    (files : list FileRecord) (i : Z) (w : World) :
  total_ok w -> total_ok (snd (for_files env jd i files w)).
Proof. apply for_files_total_ok. Qed.

Lemma running_total_is_archive_size_witness :
  total_ok (snd (for_files mixed_env "downloads/job" 0
                   [f_locked; f_gone; f_notes; f_broken]
                   (initial_world (started_session "job")))).
Proof.
  apply (running_total_is_archive_size mixed_env "downloads/job"
           [f_locked; f_gone; f_notes; f_broken] 0
           (initial_world (started_session "job"))).
  exact I.
Defined.

(** *** The ceiling *)

Lemma Forall_update_nth {A} (P : A -> Prop) (f : A -> A) : forall l h,
  Forall P l ->
  (forall x, nth_error l h = Some x -> P (f x)) ->
  Forall P (update_nth h f l).
Proof.
  induction l as [|x l IH]; intros [|h] F Hf; cbn; try exact F;
    inversion F; subst; constructor; auto.
Qed.

Lemma within_ceiling_close_zip z :
  within_ceiling z -> within_ceiling (close_zip z).
Proof. exact (fun H => H). Qed.

Lemma ceiling_close_writer w :
  Forall within_ceiling (zips w) ->
  Forall within_ceiling (zips (close_writer w)).
Proof.
  intros F. unfold close_writer. destruct (zip_writer (vars w)); [|exact F].
  cbn. apply Forall_update_nth; [exact F|].
  intros x Hx. apply within_ceiling_close_zip.
  rewrite Forall_forall in F. apply F. eapply nth_error_In, Hx.
Qed.

(** A write keeps the archives within the ceiling when the content fits
    the archive written to, or that archive is empty. *)
Lemma ceiling_after_fetch env file w :
  Forall within_ceiling (zips w) ->
  (forall h z, zip_writer (vars w) = Some h ->
               nth_error (zips w) h = Some z ->
               zip_total z + len (whole_content (media env (media_request file)))
               <= max_zip_size
               \/ entries z = []) ->
  Forall within_ceiling (zips (after_fetch env file w)).
Proof.
  intros F Hfit.
  destruct (after_fetch_size env file w) as [[-> _]|(h & Hw & -> & _)];
    [exact F|].
  apply Forall_update_nth; [exact F|].
  intros z Hz. destruct (Hfit h z Hw Hz) as [Hle|He].
  - left. now rewrite zip_total_add_entry.
  - right. unfold add_entry. cbn. rewrite He. cbn. lia.
Qed.

Lemma loop_body_ceiling env jd i file w :
  len (whole_content (media env (media_request file))) <= file_size_of file ->
  total_ok w ->
  Forall within_ceiling (zips w) ->
  Forall within_ceiling (zips (snd (loop_body env jd i file w))).
Proof.
  intros Hsize T F.
  destruct (loop_body_cases env jd i file w)
    as [(_ & ->)|[(_ & N & ->)|[(_ & _ & _ & _ & ->)|(_ & _ & e & _ & ->)]]];
    cbn [snd].
  - exact F.
  - apply ceiling_after_fetch; [exact F|].
    cbn. intros h z Hw Hz. left.
    unfold needs_new_zip in N. unfold total_ok in T. rewrite Hw in *.
    destruct T as (z' & Hz' & Ht). rewrite Hz in Hz'. injection Hz' as <-.
    rewrite Z.gtb_ltb in N. apply Z.ltb_ge in N.
    unfold max_zip_size in *. lia.
  - apply ceiling_after_fetch.
    + cbn. apply Forall_app. split; [now apply ceiling_close_writer|].
      constructor; [|constructor]. right. cbn. lia.
    + cbn. intros h z Hw Hz. right.
      injection Hw as <-.
      rewrite nth_error_app2, Nat.sub_diag in Hz by lia.
      now injection Hz as <-.
  - now apply ceiling_close_writer.
Qed.

Lemma for_files_ceiling env jd files : forall i w,
  (forall f, In f files ->
             len (whole_content (media env (media_request f)))
             <= file_size_of f) ->
  total_ok w ->
  Forall within_ceiling (zips w) ->
  Forall within_ceiling (zips (snd (for_files env jd i files w))).
Proof.
  induction files as [|file rest IH]; intros i w Hsize T F; [exact F|].
  cbn [for_files]. unfold bind.
  pose proof (loop_body_total_ok env jd i file w T) as T1.
  pose proof (loop_body_ceiling env jd i file w
                (Hsize file (or_introl eq_refl)) T F) as F1.
  destruct (loop_body env jd i file w) as [[u|e|] w1]; cbn [snd] in *;
    [|assumption|assumption].
  apply IH; [|assumption|assumption].
  intros f Hf. apply Hsize. now right.
Qed.

(** X8.  When no file is larger than the inventory declares it (1024 bytes
    for a file with no declared size), [download_to_zips] leaves every
    archive under 2 GiB of content, except archives that
    hold a single file. *)
Theorem archives_within_ceiling (env : Env) (files : list FileRecord)
    (w : World) :
  (forall f, In f files ->
             len (whole_content (media env (media_request f)))
             <= file_size_of f) ->
  Forall within_ceiling (zips w) ->
  Forall within_ceiling (zips (snd (download_to_zips env files w))).
Proof.
  intros Hsize F.
  rewrite download_to_zips_run. cbv zeta.
  destruct (makedirs env _) as [e|]; [exact F|].
  rewrite try_finally_close_run by apply for_files_not_blocked.
  cbn [snd]. apply ceiling_close_writer.
  apply for_files_ceiling; [exact Hsize|exact I|exact F].
Qed.

Lemma archives_within_ceiling_witness :
  Forall within_ceiling
    (zips (snd (download_to_zips mixed_env [f_locked; f_gone; f_notes]
                  (initial_world (started_session "job"))))).
Proof.
  apply (archives_within_ceiling mixed_env [f_locked; f_gone; f_notes]
           (initial_world (started_session "job"))).
  - intros f [<-|[<-|[<-|[]]]]; vm_compute; discriminate.
  - constructor.
Defined.

(** *** The order of the entries *)

Lemma concat_map_update_last {A B} (g : A -> list B) (f : A -> A) x l h z :
  S h = List.length l ->
  nth_error l h = Some z ->
  g (f z) = (g z ++ [x])%list ->
  List.concat (map g (update_nth h f l))
  = (List.concat (map g l) ++ [x])%list.
Proof.
  revert h. induction l as [|y l IH]; intros [|h] Hl Hz Hg; cbn in *;
    try discriminate.
  - injection Hz as ->. destruct l; [|discriminate]. cbn.
    now rewrite Hg, !app_nil_r.
  - rewrite (IH h) by (auto; lia). now rewrite app_assoc.
Qed.

Lemma all_entries_write_entry h filename content w z :
  S h = List.length (zips w) ->
  nth_error (zips w) h = Some z ->
  all_entries (write_entry h filename content w)
  = (all_entries w ++ [(filename, content)])%list.
Proof.
  intros Hl Hz. unfold all_entries, write_entry. cbn.
  now apply concat_map_update_last with (z := z).
Qed.

Lemma writer_ready_write_entry h filename content w :
  writer_ready w -> writer_ready (write_entry h filename content w).
Proof.
  unfold writer_ready, write_entry. cbn.
  destruct (zip_writer (vars w)) as [k|]; [|trivial].
  intros (Hl & z & Hz & Ho). rewrite update_nth_length. split; [exact Hl|].
  rewrite nth_error_update_nth, Hz.
  destruct (Nat.eqb k h); eexists; split; try reflexivity; exact Ho.
Qed.

Lemma writer_ready_open_zip jd w : writer_ready (open_zip jd w).
Proof.
  unfold writer_ready. cbn. rewrite length_app. cbn. split; [lia|].
  eexists. rewrite nth_error_app2, Nat.sub_diag by lia.
  split; reflexivity.
Qed.

(** One turn of the loop, when no file-system call fails. *)
Lemma loop_body_in_order env jd i file w :
  (forall p, zipfile_open env p = None) ->
  (forall p, zipfile_close env p = None) ->
  (forall p n d, zipfile_writestr env p n d = None) ->
  writer_ready w ->
  writer_ready (snd (loop_body env jd i file w))
  /\ all_entries (snd (loop_body env jd i file w))
     = (all_entries w
        ++ map (entry_of env)
             (filter (fun f => downloadable f && fetched env f) [file]))%list.
Proof.
  intros Hopen Hclose Hwrite R.
  assert (step : forall w1 : World,
            writer_ready w1 -> zip_writer (vars w1) <> None ->
            writer_ready (after_fetch env file w1)
            /\ all_entries (after_fetch env file w1)
               = (all_entries w1
                  ++ (if fetched env file then [entry_of env file] else []))%list).
  { intros w1 R1 Hw. unfold writer_ready in R1.
    destruct (zip_writer (vars w1)) as [h|] eqn:E; [|congruence].
    destruct R1 as (Hl & z & Hz & Ho).
    rewrite (after_fetch_ready env file w1 h z E Hz Ho Hwrite).
    destruct (fetched env file).
    - split.
      + apply writer_ready_write_entry. unfold writer_ready. cbn. rewrite E.
        split; [exact Hl|]. now exists z.
      + now rewrite (all_entries_write_entry h _ _
                       (with_media_request w1 (media_request file)) z Hl Hz).
    - split; [|now rewrite app_nil_r].
      unfold writer_ready. cbn. rewrite E. split; [exact Hl|]. now exists z. }
  cbn [filter].
  destruct (loop_body_cases env jd i file w)
    as [(D & ->)|[(D & N & ->)|[(D & _ & _ & _ & ->)|(_ & _ & e & [He|He] & _)]]];
    rewrite ?D; cbn [snd andb].
  - split; [exact R|now rewrite app_nil_r].
  - destruct (step (mark_processed i (mark_current file w))) as [R1 E1].
    + exact R.
    + cbn. unfold needs_new_zip in N.
      destruct (zip_writer (vars w)); congruence.
    + split; [exact R1|]. rewrite E1.
      now destruct (fetched env file).
  - destruct (step (mark_processed i
                      (mark_current file (open_zip jd (close_writer w)))))
      as [R1 E1].
    + exact (writer_ready_open_zip jd (close_writer w)).
    + cbn. discriminate.
    + split; [exact R1|]. rewrite E1.
      change (all_entries (mark_processed i
                (mark_current file (open_zip jd (close_writer w)))))
        with (all_entries (open_zip jd (close_writer w))).
      rewrite all_entries_open_zip, all_entries_close_writer.
      now destruct (fetched env file).
  - apply close_error_source in He as (p & Hp). rewrite Hclose in Hp.
    discriminate.
  - rewrite Hopen in He. discriminate.
Qed.

Lemma for_files_in_order env jd files :
  (forall p, zipfile_open env p = None) ->
  (forall p, zipfile_close env p = None) ->
  (forall p n d, zipfile_writestr env p n d = None) ->
  forall i w,
    writer_ready w ->
    all_entries (snd (for_files env jd i files w))
    = (all_entries w
       ++ map (entry_of env)
            (filter (fun f => downloadable f && fetched env f) files))%list.
Proof.
  intros Hopen Hclose Hwrite.
  induction files as [|file rest IH]; intros i w R.
  { cbn. now rewrite app_nil_r. }
  destruct (loop_body_in_order env jd i file w Hopen Hclose Hwrite R)
    as [R1 E1].
  pose proof (for_files_returns env jd [file] Hopen Hclose i w) as [Hret _].
  cbn [for_files] in *. unfold bind in *.
  destruct (loop_body env jd i file w) as [[u|e|] w1]; cbn [fst snd] in *;
    try discriminate.
  rewrite (IH _ _ R1), E1, <- app_assoc, <- map_app, <- filter_app.
  reflexivity.
Qed.

(** X9.  When no file-system call fails, the entries that [download_to_zips]
    adds are, in the order of the inventory, the files it does not skip
    whose download completed with a content that is not empty, each
    under its safe name and with the content downloaded. *)
Theorem archives_hold_fetched_files_in_order (env : Env)
    (files : list FileRecord) (w : World) :
  (forall p, makedirs env p = None) ->
  (forall p, zipfile_open env p = None) ->
  (forall p, zipfile_close env p = None) ->
  (forall p n d, zipfile_writestr env p n d = None) ->
  all_entries (snd (download_to_zips env files w))
  = (all_entries w
     ++ map (entry_of env)
          (filter (fun f => downloadable f && fetched env f) files))%list.
Proof.
  intros Hmk Hopen Hclose Hwrite.
  rewrite download_to_zips_run. cbv zeta. rewrite Hmk.
  rewrite try_finally_close_run by apply for_files_not_blocked.
  cbn [snd]. rewrite all_entries_close_writer.
  rewrite (for_files_in_order env _ files Hopen Hclose Hwrite); [reflexivity|].
  exact I.
Qed.

Lemma archives_hold_fetched_files_in_order_witness :
  all_entries
    (snd (download_to_zips mixed_env [f_locked; f_gone; f_notes; f_broken]
            (initial_world (started_session "job"))))
  = [("notes.txt", [Byte.x68; Byte.x69])].
Proof.
  exact (archives_hold_fetched_files_in_order mixed_env
           [f_locked; f_gone; f_notes; f_broken]
           (initial_world (started_session "job"))
           (fun _ => eq_refl) (fun _ => eq_refl) (fun _ => eq_refl)
           (fun _ _ _ => eq_refl)).
Defined.

(** *** The names the poller sees *)

Lemma mirrored_refl jd w : mirrored jd w w.
Proof. exists []. cbn. now rewrite !app_nil_r. Qed.

Lemma mirrored_trans jd w1 w2 w3 :
  mirrored jd w1 w2 -> mirrored jd w2 w3 -> mirrored jd w1 w3.
Proof.
  intros (a & Ha & Pa) (b & Hb & Pb). exists (a ++ b)%list.
  rewrite Hb, Ha, Pb, Pa, map_app, !app_assoc. now split.
Qed.

Lemma zip_paths_after_fetch env file w :
  map zip_path (zips (after_fetch env file w)) = map zip_path (zips w).
Proof.
  destruct (after_fetch_size env file w) as [[-> _]|(h & _ & -> & _)];
    [reflexivity|].
  now apply map_update_nth_same.
Qed.

Lemma zip_paths_close_writer w :
  map zip_path (zips (close_writer w)) = map zip_path (zips w).
Proof.
  unfold close_writer. destruct (zip_writer (vars w)); [|reflexivity].
  cbn. now apply map_update_nth_same.
Qed.

Lemma after_fetch_zip_files env file w :
  zip_files (snapshot (after_fetch env file w)) = zip_files (snapshot w).
Proof. unfold snapshot. now rewrite after_fetch_session. Qed.

Lemma loop_body_mirrored env jd i file w :
  mirrored jd w (snd (loop_body env jd i file w)).
Proof.
  destruct (loop_body_cases env jd i file w)
    as [(_ & ->)|[(_ & _ & ->)|[(_ & _ & _ & _ & ->)|(_ & _ & e & _ & ->)]]];
    cbn [snd].
  - exists []. cbn. now rewrite !app_nil_r.
  - exists []. rewrite after_fetch_zip_files, zip_paths_after_fetch. cbn.
    now rewrite !app_nil_r.
  - exists [zip_filename_of (zip_index (vars w))].
    rewrite after_fetch_zip_files, zip_paths_after_fetch.
    cbn -[zip_filename_of path_join].
    rewrite (proj1 (close_writer_frame w)), map_app, zip_paths_close_writer.
    rewrite (proj1 (proj2 (close_writer_frame w))).
    now split.
  - exists []. unfold snapshot.
    rewrite (proj1 (close_writer_frame w)), zip_paths_close_writer. cbn.
    now rewrite !app_nil_r.
Qed.

Lemma for_files_mirrored env jd files : forall i w,
  mirrored jd w (snd (for_files env jd i files w)).
Proof.
  induction files as [|file rest IH]; intros i w; [apply mirrored_refl|].
  cbn [for_files]. unfold bind.
  pose proof (loop_body_mirrored env jd i file w) as H1.
  destruct (loop_body env jd i file w) as [[u|e|] w1]; cbn [snd] in *;
    [|assumption|assumption].
  eapply mirrored_trans; [exact H1|apply IH].
Qed.

Lemma download_to_zips_mirrored (env : Env) (files : list FileRecord)
    (w : World) :
  mirrored (path_join "downloads" (job_id (session w))) w
           (snd (download_to_zips env files w)).
Proof.
  rewrite download_to_zips_run. cbv zeta.
  destruct (makedirs env _) as [e|].
  { exists []. cbn. now rewrite !app_nil_r. }
  rewrite try_finally_close_run by apply for_files_not_blocked.
  cbn [snd].
  match goal with |- context [for_files env ?jd 0 files ?w0] =>
    destruct (for_files_mirrored env jd files 0 w0) as (a & Ha & Pa);
    set (w1 := snd (for_files env jd 0 files w0)) in *
  end.
  exists a. unfold snapshot in *.
  rewrite (proj1 (close_writer_frame w1)), zip_paths_close_writer.
  split; [exact Ha|exact Pa].
Qed.

(** X10.  Whatever fails, the names [download_to_zips] appends to
    [progress.zip_files] are the names of the archives it created, in
    the same order, and each archive is at that name under the
    directory of the job. *)
Theorem zip_files_name_the_archives (env : Env) (files : list FileRecord)
    (w : World) :
  exists added,
    zip_files (snapshot (snd (download_to_zips env files w)))
    = (zip_files (snapshot w) ++ added)%list
    /\ map zip_path (zips (snd (download_to_zips env files w)))
       = (map zip_path (zips w)
          ++ map (path_join (path_join "downloads" (job_id (session w))))
               added)%list.
Proof. exact (download_to_zips_mirrored env files w). Qed.

(** *** Empty files *)

(** X11.  A file whose download completes with no bytes is fetched (the
    fetcher returns the empty content, not [None]) and counted as
    processed, but no entry is written for it: [if file_content] takes
    the empty content for a failure. *)
Theorem empty_file_is_counted_not_written (env : Env) (jd : string) (i : Z)
    (file : FileRecord) (w : World) :
  reported_error (media env (media_request file)) = None ->
  whole_content (media env (media_request file)) = [] ->
  fst (download_single_file env file w) = Return (Some [])
  /\ all_entries (snd (loop_body env jd i file w)) = all_entries w
  /\ (fst (loop_body env jd i file w) = Return tt ->
      processed_files (snapshot (snd (loop_body env jd i file w))) = i + 1).
Proof.
  intros He Hc. split; [|split].
  - now rewrite download_single_file_outcome, He, Hc.
  - destruct (loop_body_cases env jd i file w)
      as [(_ & ->)|[(_ & _ & ->)|[(_ & _ & _ & _ & ->)|(_ & _ & e & _ & ->)]]];
      cbn [snd]; rewrite ?(after_fetch_empty env file _ Hc).
    + reflexivity.
    + reflexivity.
    + change (all_entries (open_zip jd (close_writer w)) = all_entries w).
      now rewrite all_entries_open_zip, all_entries_close_writer.
    + apply all_entries_close_writer.
  - intros Hret.
    destruct (loop_body_progress env jd i file w) as [_ [[_ H]|(e & H & _)]];
      [exact H|congruence].
Qed.

Lemma empty_file_is_counted_not_written_witness :
  all_entries
    (snd (loop_body (quiet_env [] (fun _ => LastChunk [])) "downloads/job" 0
            (plain_file "1" "empty.txt" (Some 0))
            (initial_world (started_session "job"))))
  = [].
Proof.
  refine (proj1 (proj2 (empty_file_is_counted_not_written
            (quiet_env [] (fun _ => LastChunk [])) "downloads/job" 0
            (plain_file "1" "empty.txt" (Some 0))
            (initial_world (started_session "job")) _ _))).
  - reflexivity.
  - reflexivity.
Defined.

(* ================================================================= *)
(** ** What [process_download] reports *)

Lemma same_report_refl w : same_report w w.
Proof. now repeat split. Qed.

Lemma same_report_trans w1 w2 w3 :
  same_report w1 w2 -> same_report w2 w3 -> same_report w1 w3.
Proof.
  unfold same_report.
  intros (a1 & a2 & a3 & a4 & a5 & a6) (b1 & b2 & b3 & b4 & b5 & b6).
  repeat split; congruence.
Qed.

Lemma after_fetch_list_log env file w :
  list_log (after_fetch env file w) = list_log w.
Proof.
  destruct (after_fetch_zips env file w)
    as [H|(h & z & _ & _ & _ & _ & _ & _ & ->)]; [|reflexivity].
  unfold after_fetch in *.
  destruct (reported_error _); [reflexivity|].
  destruct (whole_content _); [reflexivity|].
  destruct (zip_writer (vars w)); [|reflexivity].
  destruct (nth_error (zips w) _) as [z|]; [|reflexivity].
  destruct (fp_open z); [|reflexivity].
  now destruct (zipfile_writestr env _ _ _).
Qed.

Lemma close_writer_list_log w : list_log (close_writer w) = list_log w.
Proof. unfold close_writer. now destruct (zip_writer (vars w)). Qed.

Lemma loop_body_same_report env jd i file w :
  same_report w (snd (loop_body env jd i file w)).
Proof.
  destruct (loop_body_cases env jd i file w)
    as [(_ & ->)|[(_ & _ & ->)|[(_ & _ & _ & _ & ->)|(_ & _ & e & _ & ->)]]];
    cbn [snd]; unfold same_report, snapshot;
    rewrite ?after_fetch_session, ?after_fetch_list_log; cbn;
    rewrite ?(proj1 (close_writer_frame w)), ?close_writer_list_log;
    now repeat split.
Qed.

Lemma for_files_same_report env jd files : forall i w,
  same_report w (snd (for_files env jd i files w)).
Proof.
  induction files as [|file rest IH]; intros i w; [apply same_report_refl|].
  cbn [for_files]. unfold bind.
  pose proof (loop_body_same_report env jd i file w) as H1.
  destruct (loop_body env jd i file w) as [[u|e|] w1]; cbn [snd] in *;
    [|assumption|assumption].
  eapply same_report_trans; [exact H1|apply IH].
Qed.

Lemma download_to_zips_same_report env files w :
  same_report w (snd (download_to_zips env files w)).
Proof.
  rewrite download_to_zips_run. cbv zeta.
  destruct (makedirs env _) as [e|]; [now repeat split|].
  rewrite try_finally_close_run by apply for_files_not_blocked.
  cbn [snd].
  match goal with |- context [for_files env ?jd 0 files ?w0] =>
    pose proof (for_files_same_report env jd files 0 w0) as H;
    set (w1 := snd (for_files env jd 0 files w0)) in *
  end.
  unfold same_report, snapshot in *.
  rewrite (proj1 (close_writer_frame w1)), close_writer_list_log.
  exact H.
Qed.

Lemma connect_error env w :
  error (snapshot (snd (connect env w))) = error (snapshot w)
  /\ dirs (snd (connect env w)) = dirs w
  /\ list_log (snd (connect env w)) = list_log w.
Proof.
  unfold connect, bind, gets, set_status, set_progress, modify, set_token,
    call, raise, ret.
  cbn. destruct (token (session w)) as [c|]; [|now repeat split].
  destruct (expired c).
  - destruct (token_refresh env); [now repeat split|]. cbn.
    destruct (build env); now repeat split.
  - destruct (build env); now repeat split.
Qed.

Lemma list_all_files_error env w :
  error (snapshot (snd (list_all_files env w))) = error (snapshot w)
  /\ dirs (snd (list_all_files env w)) = dirs w.
Proof.
  unfold list_all_files.
  destruct (list_loop_frame (list_script env) None [] w) as [tokens ->].
  now split.
Qed.

(** X12.  No exception leaves [process_download]: when it ends it
    returns, and it then leaves the status [completed] with the error
    text as it was, or the status [error]. *)
Theorem process_download_never_raises (env : Env) (w : World) :
  (forall e, fst (process_download env w) <> Raise e)
  /\ (fst (process_download env w) = Return tt ->
      (status (snapshot (snd (process_download env w))) = Completed
       /\ error (snapshot (snd (process_download env w))) = error (snapshot w))
      \/ status (snapshot (snd (process_download env w))) = Error).
Proof.
  rewrite process_download_unfold.
  destruct (connect_error env w) as (He & _ & _).
  destruct (connect env w) as [[u|e|] wc]; cbn [fst snd] in *.
  - destruct (list_all_files_error env wc) as [He' _].
    destruct (list_all_files env wc) as [[files|e|] wl]; cbn [fst snd] in *.
    + rewrite download_phase_run. cbv zeta.
      match goal with |- context [download_to_zips env ?dl ?wd] =>
        pose proof (download_to_zips_same_report env dl wd) as (_ & E & _);
        destruct (download_to_zips env dl wd) as [[u'|e|] w2]
      end; cbn [fst snd] in *.
      * split; [discriminate|].
        intros _. left. split; [reflexivity|].
        unfold snapshot in *. cbn in *. congruence.
      * split; [discriminate|]. intros _. now right.
      * split; discriminate.
    + split; [discriminate|]. intros _. now right.
    + split; discriminate.
  - split; [discriminate|]. intros _. now right.
  - split; discriminate.
Qed.

(** X13.  When the credential cannot be refreshed or the service cannot be
    built, [process_download] returns with the status [error] and the
    text of the exception, and has done nothing else: no listing
    request, no download, no directory, no archive. *)
Theorem process_download_connection_failure (env : Env) (w : World)
    (c : Credentials) (e : Exn) :
  token (session w) = Some c ->
  (expired c = true /\ token_refresh env = Some e)
  \/ ((expired c = true -> token_refresh env = None) /\ build env = Some e) ->
  fst (process_download env w) = Return tt
  /\ status (snapshot (snd (process_download env w))) = Error
  /\ error (snapshot (snd (process_download env w))) = str e
  /\ list_log (snd (process_download env w)) = list_log w
  /\ media_log (snd (process_download env w)) = media_log w
  /\ dirs (snd (process_download env w)) = dirs w
  /\ zips (snd (process_download env w)) = zips w.
Proof.
  intros Ht H. rewrite process_download_unfold.
  assert (exists wc, connect env w = (Raise e, wc)
                     /\ list_log wc = list_log w /\ media_log wc = media_log w
                     /\ dirs wc = dirs w /\ zips wc = zips w) as (wc & -> & R).
  { unfold connect, bind, gets, set_status, set_progress, modify, set_token,
      call, raise, ret.
    cbn. rewrite Ht.
    destruct H as [[-> ->]|[Hr Hb]].
    - eexists. split; [reflexivity|]. now repeat split.
    - destruct (expired c).
      + rewrite (Hr eq_refl), Hb. eexists. split; [reflexivity|].
        now repeat split.
      + rewrite Hb. eexists. split; [reflexivity|]. now repeat split. }
  unfold report_error, bind, set_status, set_error, set_progress, modify.
  cbn. destruct R as (? & ? & ? & ?). now repeat split.
Qed.

Lemma process_download_connection_failure_witness :
  status (snapshot (snd (process_download
                           (mkEnv (Some (Exception "invalid_grant")) None []
                                  (fun _ => LastChunk []) (fun _ => None)
                                  (fun _ => None) (fun _ _ _ => None)
                                  (fun _ => None))
                           (initial_world
                              (mkSession (Some (mkCredentials true)) "st" "job"
                                         0 starting_progress)))))
  = Error.
Proof.
  refine (proj1 (proj2 (process_download_connection_failure
            (mkEnv (Some (Exception "invalid_grant")) None []
                   (fun _ => LastChunk []) (fun _ => None)
                   (fun _ => None) (fun _ _ _ => None) (fun _ => None))
            (initial_world
               (mkSession (Some (mkCredentials true)) "st" "job" 0
                          starting_progress))
            (mkCredentials true) (Exception "invalid_grant") _ _))).
  - reflexivity.
  - left. split; reflexivity.
Defined.

(** X14.  When a listing request fails, [process_download] returns with the
    status [error] and the text of the exception [list_all_files]
    raised, after the requests for the pages before, and has downloaded
    nothing and created neither a directory nor an archive. *)
Theorem process_download_listing_failure (env : Env) (w : World)
    (c : Credentials) (pre : list Page) (e : Exn) (rest : list Answer) :
  token (session w) = Some c ->
  (expired c = true -> token_refresh env = None) ->
  build env = None ->
  list_script env = (map Answers pre ++ ExecuteFails e :: rest)%list ->
  forallb has_token pre = true ->
  fst (process_download env w) = Return tt
  /\ status (snapshot (snd (process_download env w))) = Error
  /\ error (snapshot (snd (process_download env w))) = str (listing_error e)
  /\ list_log (snd (process_download env w))
     = (list_log w ++ map list_request (None :: map nextPageToken pre))%list
  /\ media_log (snd (process_download env w)) = media_log w
  /\ dirs (snd (process_download env w)) = dirs w
  /\ zips (snd (process_download env w)) = zips w.
Proof.
  intros Ht Hr Hb Hs Hpre. rewrite process_download_unfold.
  pose proof (connect_returns env w c Ht Hr Hb) as Hc.
  destruct (connect_cases env w) as [(_ & _ & _ & _ & Hz & Hm) _].
  destruct (connect_error env w) as (_ & Hd & Hl).
  destruct (connect env w) as [[[]|e'|] wc]; cbn [fst snd] in *;
    try discriminate.
  unfold list_all_files. rewrite Hs, (list_loop_fails pre e rest _ _ _ Hpre).
  unfold report_error, bind, set_status, set_error, set_progress, modify.
  cbn. rewrite Hl, Hm, Hd, Hz. now repeat split.
Qed.

Lemma process_download_listing_failure_witness :
  error (snapshot (snd (process_download
                          (quiet_env [ExecuteFails (HttpError 500 "backend")]
                                     (fun _ => LastChunk []))
                          (initial_world (started_session "job")))))
  = "Failed to list files: backend".
Proof.
  refine (proj1 (proj2 (proj2 (process_download_listing_failure
            (quiet_env [ExecuteFails (HttpError 500 "backend")]
                       (fun _ => LastChunk []))
            (initial_world (started_session "job"))
            (mkCredentials false) [] (HttpError 500 "backend") [] _ _ _ _ _)))).
  - reflexivity.
  - discriminate.
  - reflexivity.
  - reflexivity.
  - reflexivity.
Defined.

(* ================================================================= *)
(** ** The sweep and sessions that never started a job *)

Lemma prefix_app_In r c : forall s,
  String.prefix (r ++ String c "") s = true ->
  In c (list_ascii_of_string s).
Proof.
  induction r as [|a r IH]; intros [|b s]; cbn; try discriminate.
  - destruct (ascii_dec c b) as [->|]; [now left|discriminate].
  - destruct (ascii_dec a b); [|discriminate]. intros H. right. now apply IH.
Qed.

(** Only the directory itself is a root that holds [downloads]. *)
Lemma is_under_downloads r :
  is_under r "downloads" = true -> r = "downloads".
Proof.
  unfold is_under. intros H. apply orb_true_iff in H as [H|H].
  - apply String.eqb_eq in H. now symmetry.
  - apply prefix_app_In in H. cbn in H.
    repeat (destruct H as [H|H]; [discriminate H|]). destruct H.
Qed.

Lemma is_under_trans_downloads p d :
  is_under "downloads" p = true ->
  ~ In p (rmtree d "downloads/").
Proof.
  intros U Hin. unfold rmtree in Hin. apply filter_In in Hin as [_ Hn].
  change (strip_slash "downloads/") with "downloads" in Hn.
  now rewrite U in Hn.
Qed.

Lemma In_rmtree d r x :
  In x d -> is_under (strip_slash r) x = false -> In x (rmtree d r).
Proof.
  intros Hin U. unfold rmtree. apply filter_In. split; [exact Hin|].
  now rewrite U.
Qed.

Lemma rmtree_downloads_root d r p :
  is_under (strip_slash r) "downloads" = true ->
  is_under "downloads" p = true ->
  ~ In p (rmtree d r).
Proof.
  intros Hr U Hin. apply is_under_downloads in Hr.
  unfold rmtree in Hin. apply filter_In in Hin as [_ Hn].
  now rewrite Hr, U in Hn.
Qed.

Lemma remove_session_downloads_sound srv k :
  downloads_sound (disk srv) ->
  downloads_sound (disk (remove_session srv k)).
Proof.
  intros [Hd|Hn].
  - unfold remove_session.
    destruct (dict_lookup k (sessions srv)) as [s|]; [|now left]. cbn.
    destruct (path_exists (disk srv) (job_dir_of s)); [|now left].
    destruct (is_under (strip_slash (job_dir_of s)) "downloads") eqn:U.
    + right. intros p Hp. now apply rmtree_downloads_root.
    + left. now apply In_rmtree.
  - right. intros p Hp Hin. apply (Hn p Hp).
    now apply remove_session_disk in Hin.
Qed.

Lemma path_exists_In d p :
  path_exists d p = false -> ~ In (strip_slash p) d.
Proof.
  unfold path_exists. intros H Hin.
  assert (existsb (String.eqb (strip_slash p)) d = true) as E.
  { apply existsb_exists. exists (strip_slash p). split; [exact Hin|].
    apply String.eqb_refl. }
  congruence.
Qed.

Lemma remove_idle_session srv sid s p :
  downloads_sound (disk srv) ->
  dict_lookup sid (sessions srv) = Some s ->
  job_id s = "" ->
  is_under "downloads" p = true ->
  ~ In p (disk (remove_session srv sid)).
Proof.
  intros S L J U. unfold remove_session. rewrite L. cbn.
  unfold job_dir_of. rewrite J.
  change (path_join "downloads" "") with "downloads/".
  destruct (path_exists (disk srv) "downloads/") eqn:E.
  - now apply is_under_trans_downloads.
  - destruct S as [Hd|Hn]; [|now apply Hn].
    apply path_exists_In in E. now elim E.
Qed.

Lemma fold_remove_idle_session keys : forall srv sid s p,
  downloads_sound (disk srv) ->
  In sid keys ->
  dict_lookup sid (sessions srv) = Some s ->
  job_id s = "" ->
  is_under "downloads" p = true ->
  ~ In p (disk (fold_left remove_session keys srv)).
Proof.
  induction keys as [|k keys IH]; intros srv sid s p S Hin L J U; [destruct Hin|].
  cbn [fold_left].
  destruct (String.eqb_spec sid k) as [<-|Hne].
  - intros Hp. apply fold_remove_disk in Hp.
    now apply (remove_idle_session srv sid s p).
  - destruct Hin as [->|Hin]; [congruence|].
    apply (IH _ sid s p); auto.
    + now apply remove_session_downloads_sound.
    + now rewrite remove_session_sessions, dict_lookup_del_other.
Qed.

Lemma dict_lookup_expired now srv sid s :
  dict_lookup sid (sessions srv) = Some s ->
  is_expired now s = true ->
  In sid (expired_sessions now srv).
Proof.
  intros L E. apply dict_lookup_In in L. unfold expired_sessions.
  apply in_map_iff. exists (sid, s). split; [reflexivity|].
  apply filter_In. now split.
Qed.

(** X1.  When the sweep removes a session that never started a job, its
    [job_dir] is [downloads/] itself: nothing is left of [downloads],
    the archives of every other session included, the sessions that
    stay registered too. *)
Theorem cleanup_tick_idle_session_empties_downloads (now : Z) (srv : Server)
    (sid : string) (s : UserSession) (p : string) :
  In "downloads" (disk srv) ->
  dict_lookup sid (sessions srv) = Some s ->
  is_expired now s = true ->
  job_id s = "" ->
  is_under "downloads" p = true ->
  ~ In p (disk (cleanup_tick now srv)).
Proof.
  intros Hd L E J U. unfold cleanup_tick.
  apply (fold_remove_idle_session _ srv sid s p); auto.
  - now left.
  - now apply (dict_lookup_expired now srv sid s).
Qed.

Lemma cleanup_tick_idle_session_empties_downloads_witness :
  dict_lookup "s" (sessions (cleanup_tick (hours 5)
                               (run idle_session_timeline fresh_server)))
  = Some (mkSession (Some (mkCredentials false)) "st" "job" (hours 2)
                    starting_progress)
  /\ In "downloads/job" (disk (run idle_session_timeline fresh_server))
  /\ ~ In "downloads/job"
        (disk (cleanup_tick (hours 5)
                 (run idle_session_timeline fresh_server))).
Proof.
  split; [vm_compute; reflexivity|].
  split; [vm_compute; tauto|].
  refine (cleanup_tick_idle_session_empties_downloads (hours 5)
            (run idle_session_timeline fresh_server) "idle"
            (mkSession None "st0" "" 0 (mkProgress 0 0 "" Idle [] ""))
            "downloads/job" _ _ _ _ _).
  - vm_compute. tauto.
  - vm_compute. reflexivity.
  - vm_compute. reflexivity.
  - reflexivity.
  - vm_compute. reflexivity.
Defined.

(** X15.  A second turn of the sweep at the same time changes nothing:
    no session is left that it would remove, and the disk stays as the
    first turn left it. *)
Theorem cleanup_tick_idempotent (now : Z) (srv : Server) :
  NoDup (map fst (sessions srv)) ->
  cleanup_tick now (cleanup_tick now srv) = cleanup_tick now srv.
Proof.
  intros ND.
  assert (expired_sessions now (cleanup_tick now srv) = []) as E.
  { unfold expired_sessions. rewrite (cleanup_tick_sessions now srv ND).
    induction (sessions srv) as [|kv l IH]; [reflexivity|]. cbn.
    destruct (is_expired now (snd kv)) eqn:X; cbn.
    - apply IH. cbn in ND. now inversion ND.
    - rewrite X. cbn. apply IH. cbn in ND. now inversion ND. }
  unfold cleanup_tick at 1. now rewrite E.
Qed.

Lemma cleanup_tick_idempotent_witness :
  cleanup_tick (hours 5) (cleanup_tick (hours 5) two_sessions_server)
  = cleanup_tick (hours 5) two_sessions_server.
Proof.
  apply (cleanup_tick_idempotent (hours 5) two_sessions_server).
  vm_compute. repeat constructor; cbn; intuition discriminate.
Defined.

(* ================================================================= *)
(** ** The HTTP handlers *)

Lemma dict_lookup_set_same k v d : dict_lookup k (dict_set k v d) = Some v.
Proof.
  induction d as [|[k0 v0] d IH]; cbn.
  - now rewrite String.eqb_refl.
  - destruct (String.eqb_spec k k0) as [->|Hne]; cbn.
    + now rewrite String.eqb_refl.
    + destruct (String.eqb_spec k k0); [contradiction|exact IH].
Qed.

Lemma dict_lookup_set_other k k' v d :
  k' <> k -> dict_lookup k' (dict_set k v d) = dict_lookup k' d.
Proof.
  intros Hne. induction d as [|[k0 v0] d IH]; cbn.
  - destruct (String.eqb_spec k' k); [contradiction|reflexivity].
  - destruct (String.eqb_spec k k0) as [->|Hk]; cbn.
    + destruct (String.eqb_spec k' k0); [contradiction|reflexivity].
    + destruct (String.eqb_spec k' k0); [reflexivity|exact IH].
Qed.

Lemma find_session_Some r srv sid s :
  Http.find_session r srv = Some (sid, s)
  <-> Http.cookie_session_id r = Some sid
      /\ sid <> "" /\ dict_lookup sid (sessions srv) = Some s.
Proof.
  unfold Http.find_session. split.
  - destruct (Http.cookie_session_id r) as [k|]; [|discriminate]. cbn.
    destruct (String.eqb_spec k ""); cbn; [discriminate|].
    destruct (dict_lookup k (sessions srv)) as [s0|] eqn:L; [|discriminate].
    intros [= -> ->]. now repeat split.
  - intros (-> & Hne & L). cbn.
    destruct (String.eqb_spec sid ""); [contradiction|]. cbn. now rewrite L.
Qed.

(** X16.  [start_login] registers the session before it creates the flow:
    without the configuration it answers 500 and registers nothing;
    with it the session is in the registry, new and without credential,
    also when the answer is the 500 of a failed flow, which sets no
    cookie; no other session and no directory is touched. *)
Theorem start_login_registers_before_flow (cfg : Http.Config) (now : Z)
    (session_id st : string) (flow : Exn + string) (srv : Server) :
  (truthy_str (Http.client_id cfg) && truthy_str (Http.client_secret cfg)
   = false ->
   exists detail,
     Http.start_login cfg now session_id st flow srv
     = (Http.HTTPException 500 detail, srv))
  /\ (truthy_str (Http.client_id cfg) && truthy_str (Http.client_secret cfg)
      = true ->
      dict_lookup session_id
        (sessions (snd (Http.start_login cfg now session_id st flow srv)))
      = Some (mkSession None st "" now (mkProgress 0 0 "" Idle [] ""))
      /\ (forall other,
            other <> session_id ->
            dict_lookup other
              (sessions (snd (Http.start_login cfg now session_id st flow srv)))
            = dict_lookup other (sessions srv))
      /\ disk (snd (Http.start_login cfg now session_id st flow srv))
         = disk srv
      /\ snd (Http.start_login cfg now session_id st flow srv)
         = start_login now session_id st srv
      /\ match flow with
         | inr auth_url =>
             fst (Http.start_login cfg now session_id st flow srv)
             = Http.Json_auth_url auth_url
                 (Http.mkCookie "session_id" session_id 3600 true "lax")
         | inl e =>
             fst (Http.start_login cfg now session_id st flow srv)
             = Http.HTTPException 500
                 ("Failed to create OAuth flow: " ++ str e)
         end).
Proof.
  unfold Http.start_login. split; intros H.
  - rewrite <- negb_andb, H. cbn. eexists. reflexivity.
  - rewrite <- negb_andb, H. cbn [negb].
    destruct flow as [e|url]; cbn [fst snd sessions disk];
      (split; [apply dict_lookup_set_same|]);
      (split; [intros other Hne; now apply dict_lookup_set_other|]);
      repeat split.
Qed.

Lemma start_login_registers_before_flow_witness :
  dict_lookup "sid"
    (sessions (snd (Http.start_login
                      (Http.mkConfig (Some "id") (Some "secret")) 7 "sid" "st"
                      (inl (Exception "no network")) fresh_server)))
  = Some (mkSession None "st" "" 7 (mkProgress 0 0 "" Idle [] "")).
Proof.
  refine (proj1 (proj2 (start_login_registers_before_flow
            (Http.mkConfig (Some "id") (Some "secret")) 7 "sid" "st"
            (inl (Exception "no network")) fresh_server) _)).
  reflexivity.
Defined.

(** X17.  [auth_callback] answers with the redirect to the dashboard exactly
    when the request reports no error, carries a code, comes with the
    cookie of a registered session and the state that session was given
    at login, and the code is exchanged; then that session, and no
    other, holds the credentials and the status [authenticated].  In
    every other case the server is as it was. *)
Theorem auth_callback_checks_state (r : Http.Request)
    (exchange : Exn + Credentials) (srv : Server) :
  (fst (Http.auth_callback r exchange srv)
   = Http.RedirectResponse "/dashboard" 302
   <-> truthy_str (Http.param_error r) = false
       /\ truthy_str (Http.param_code r) = true
       /\ exists sid s credentials,
            Http.find_session r srv = Some (sid, s)
            /\ Http.param_state r = Some (state s)
            /\ state s <> ""
            /\ exchange = inr credentials)
  /\ (fst (Http.auth_callback r exchange srv)
      <> Http.RedirectResponse "/dashboard" 302 ->
      snd (Http.auth_callback r exchange srv) = srv)
  /\ (forall sid s credentials,
        fst (Http.auth_callback r exchange srv)
        = Http.RedirectResponse "/dashboard" 302 ->
        Http.find_session r srv = Some (sid, s) ->
        exchange = inr credentials ->
        dict_lookup sid (sessions (snd (Http.auth_callback r exchange srv)))
        = Some (mkSession (Some credentials) (state s) (job_id s)
                  (created_at s)
                  (mkProgress (total_files (progress s))
                     (processed_files (progress s))
                     (current_file (progress s)) Authenticated
                     (zip_files (progress s)) (error (progress s))))
        /\ (forall other,
              other <> sid ->
              dict_lookup other
                (sessions (snd (Http.auth_callback r exchange srv)))
              = dict_lookup other (sessions srv))
        /\ disk (snd (Http.auth_callback r exchange srv)) = disk srv).
Proof.
  unfold Http.auth_callback. cbv zeta.
  destruct (truthy_str (Http.param_error r)) eqn:Eerr.
  { cbn [fst snd]. split; [|split]; try reflexivity.
    - split; [discriminate|]. intros ([=] & _).
    - discriminate. }
  destruct (truthy_str (Http.param_code r)) eqn:Ecode; cbn [negb orb];
    [|cbn [fst snd]; split; [|split]; try reflexivity;
      [split; [discriminate|]; intros (_ & [=] & _)|discriminate]].
  destruct (truthy_str (Http.param_state r)) eqn:Est; cbn [negb].
  2:{ cbn [fst snd]. split; [|split]; try reflexivity; [|discriminate].
      split; [discriminate|].
      intros (_ & _ & sid & s & c & _ & Hs & Hne & _).
      rewrite Hs in Est. cbn in Est.
      destruct (String.eqb_spec (state s) ""); [contradiction|discriminate]. }
  destruct (Http.find_session r srv) as [[sid s]|] eqn:F.
  2:{ cbn [fst snd]. split; [|split]; try reflexivity; [|discriminate].
      split; [discriminate|]. intros (_ & _ & ? & ? & ? & [=] & _). }
  destruct (String.eqb_spec (get (Http.param_state r) "") (state s))
    as [Heq|Hne]; cbn [negb].
  2:{ cbn [fst snd]. split; [|split]; try reflexivity; [|discriminate].
      split; [discriminate|].
      intros (_ & _ & sid' & s' & c & [= <- <-] & Hs & _).
      rewrite Hs in Hne. now elim Hne. }
  destruct exchange as [e|credentials]; cbn [fst snd].
  { split; [|split]; try reflexivity; [|discriminate].
    split; [discriminate|]. intros (_ & _ & ? & ? & ? & _ & _ & _ & [=]). }
  split; [|split].
  - split; [|reflexivity]. intros _. repeat split.
    exists sid, s, credentials.
    destruct (Http.param_state r) as [st|]; [|discriminate].
    cbn in Heq, Est. subst st.
    repeat split.
    intros E. rewrite E in Est. discriminate.
  - intros H. now elim H.
  - intros sid' s' c' _ [= <- <-] [= <-]. cbn [sessions disk].
    split; [apply dict_lookup_set_same|].
    split; [|reflexivity].
    intros other Hne. now apply dict_lookup_set_other.
Qed.

Lemma auth_callback_checks_state_witness :
  snd (Http.auth_callback (callback_request "s" "code" "forged")
         (inr (mkCredentials false))
         (start_login 0 "s" "st" fresh_server))
  = start_login 0 "s" "st" fresh_server.
Proof.
  refine (proj1 (proj2 (auth_callback_checks_state
            (callback_request "s" "code" "forged")
            (inr (mkCredentials false))
            (start_login 0 "s" "st" fresh_server))) _).
  vm_compute. discriminate.
Defined.

(** X18.  [dashboard] shows the page and [start_download] starts a job only
    for the cookie of a registered session that holds credentials.  A
    job that is started runs on the session as registered: with the
    counters at zero, the status [starting], no archive and no error,
    and with the credentials, the state and the time of creation the
    session had; a refusal changes nothing and schedules nothing. *)
Theorem start_download_needs_token (r : Http.Request) (job : string)
    (srv : Server) :
  (Http.dashboard r srv = Http.TemplateResponse "dashboard.html"
   <-> exists sid s c,
         Http.find_session r srv = Some (sid, s) /\ token s = Some c)
  /\ (fst (fst (Http.start_download r job srv)) = Http.Json_job_id job
      <-> exists sid s c,
            Http.find_session r srv = Some (sid, s) /\ token s = Some c)
  /\ (fst (fst (Http.start_download r job srv)) <> Http.Json_job_id job ->
      Http.start_download r job srv
      = (Http.HTTPException 401 "Not authenticated", srv, None))
  /\ (forall sid s,
        Http.find_session r srv = Some (sid, s) ->
        token s <> None ->
        let started :=
          mkSession (token s) (state s) job (created_at s)
                    (mkProgress 0 0 "" Starting [] "") in
        snd (Http.start_download r job srv) = Some started
        /\ dict_lookup sid (sessions (snd (fst (Http.start_download r job srv))))
           = Some started
        /\ (forall other,
              other <> sid ->
              dict_lookup other
                (sessions (snd (fst (Http.start_download r job srv))))
              = dict_lookup other (sessions srv))
        /\ disk (snd (fst (Http.start_download r job srv))) = disk srv).
Proof.
  unfold Http.dashboard, Http.start_download.
  destruct (Http.find_session r srv) as [[sid s]|].
  2:{ cbn. repeat split; try discriminate.
      - intros (? & ? & ? & [=] & _).
      - intros (? & ? & ? & [=] & _). }
  destruct (token s) as [c|] eqn:T; cbn [fst snd].
  - split; [|split; [|split]].
    + split; [|reflexivity]. intros _. now exists sid, s, c.
    + split; [|reflexivity]. intros _. now exists sid, s, c.
    + intros H. now elim H.
    + intros sid' s' [= <- <-] _. cbv zeta. cbn [sessions disk].
      rewrite T. split; [reflexivity|].
      split; [apply dict_lookup_set_same|].
      split; [|reflexivity].
      intros other Hne. now apply dict_lookup_set_other.
  - split; [|split; [|split]].
    + split; [discriminate|]. intros (? & ? & ? & [= <- <-] & H). congruence.
    + split; [discriminate|]. intros (? & ? & ? & [= <- <-] & H). congruence.
    + reflexivity.
    + intros sid' s' [= <- <-] H. now elim H.
Qed.

Lemma start_download_needs_token_witness :
  Http.start_download (cookie_request "s") "job"
    (start_login 0 "s" "st" fresh_server)
  = (Http.HTTPException 401 "Not authenticated",
     start_login 0 "s" "st" fresh_server, None).
Proof.
  refine (proj1 (proj2 (proj2 (start_download_needs_token
            (cookie_request "s") "job"
            (start_login 0 "s" "st" fresh_server)))) _).
  vm_compute. discriminate.
Defined.

Lemma dict_lookup_filter f sid s : forall d,
  NoDup (map fst d) ->
  In (sid, s) d ->
  dict_lookup sid (filter f d) = if f (sid, s) then Some s else None.
Proof.
  induction d as [|[k v] d IH]; intros ND Hin; [destruct Hin|].
  cbn in ND. inversion ND as [|? ? Hk ND']; subst.
  destruct Hin as [[= -> ->]|Hin].
  - cbn. destruct (f (sid, s)) eqn:F.
    + cbn. now rewrite String.eqb_refl.
    + destruct (dict_lookup sid (filter f d)) as [s'|] eqn:L; [|reflexivity].
      apply dict_lookup_In in L. apply filter_In in L as [L _].
      elim Hk. apply in_map_iff. now exists (sid, s').
  - assert (sid <> k) as Hne.
    { intros ->. elim Hk. apply in_map_iff. now exists (k, s). }
    cbn. destruct (f (k, v)); cbn.
    + destruct (String.eqb_spec sid k); [contradiction|]. now apply IH.
    + now apply IH.
Qed.

(** X19.  Once the sweep has removed a session its cookie is worth nothing:
    the dashboard redirects to the home page, a job is refused with
    401, the progress is 404, an archive is refused with 401 and a
    callback ends in [invalid_session].  The cookie of a session that
    is not older than four hours is served as before. *)
Theorem swept_session_is_rejected (now : Z) (srv : Server)
    (r : Http.Request) (sid : string) (s : UserSession) :
  NoDup (map fst (sessions srv)) ->
  Http.cookie_session_id r = Some sid ->
  In (sid, s) (sessions srv) ->
  (is_expired now s = true ->
   Http.dashboard r (cleanup_tick now srv)
   = Http.RedirectResponse "/" 307
   /\ (forall job,
         Http.start_download r job (cleanup_tick now srv)
         = (Http.HTTPException 401 "Not authenticated",
            cleanup_tick now srv, None))
   /\ Http.get_progress r (cleanup_tick now srv)
      = Http.HTTPException 404 "Session not found"
   /\ (forall filename,
         Http.download_file r filename (cleanup_tick now srv)
         = Http.HTTPException 401 "Unauthorized")
   /\ (forall exchange,
         truthy_str (Http.param_error r) = false ->
         truthy_str (Http.param_code r) = true ->
         truthy_str (Http.param_state r) = true ->
         Http.auth_callback r exchange (cleanup_tick now srv)
         = (Http.RedirectResponse "/?error=invalid_session" 307,
            cleanup_tick now srv)))
  /\ (is_expired now s = false ->
      Http.find_session r (cleanup_tick now srv) = Http.find_session r srv).
Proof.
  intros ND Hc Hin.
  assert (dict_lookup sid (sessions (cleanup_tick now srv))
          = if negb (is_expired now s) then Some s else None) as L.
  { rewrite (cleanup_tick_sessions now srv ND).
    now rewrite (dict_lookup_filter _ sid s (sessions srv) ND Hin). }
  split; intros E; rewrite E in L; cbn in L.
  - assert (Http.find_session r (cleanup_tick now srv) = None) as F.
    { unfold Http.find_session. rewrite Hc, L.
      now destruct (negb (truthy_str (Some sid))). }
    unfold Http.dashboard, Http.start_download, Http.get_progress,
      Http.download_file, Http.auth_callback.
    rewrite F. repeat split.
    intros exchange -> -> ->. reflexivity.
  - unfold Http.find_session. rewrite Hc, L.
    now rewrite (In_dict_lookup sid s (sessions srv) ND Hin).
Qed.

Lemma swept_session_is_rejected_witness :
  Http.get_progress (cookie_request "old")
    (cleanup_tick (hours 5) two_sessions_server)
  = Http.HTTPException 404 "Session not found".
Proof.
  refine (proj1 (proj2 (proj2 (proj1 (swept_session_is_rejected (hours 5)
            two_sessions_server (cookie_request "old") "old"
            (mkSession (Some (mkCredentials false)) "st" "job-old" 0
               (mkProgress 3 3 "c" Completed ["drive_backup_001.zip"] ""))
            _ _ _) _)))).
  - vm_compute. repeat constructor; cbn; intuition discriminate.
  - reflexivity.
  - left. reflexivity.
  - vm_compute. reflexivity.
Defined.

(** *** From the job to the archives that are served *)

Lemma process_download_mirrored env w :
  mirrored (path_join "downloads" (job_id (session w))) w
           (snd (process_download env w)).
Proof.
  rewrite process_download_unfold.
  destruct (connect_cases env w) as [(Hj & _ & _ & Hf & Hz & _) _].
  destruct (connect env w) as [[u|e|] wc]; cbn [fst snd] in *.
  - destruct (list_all_files_same_job env wc)
      as [(Hj' & _ & _ & Hf' & Hz' & _) _].
    destruct (list_all_files env wc) as [[files|e|] wl]; cbn [fst snd] in *.
    + rewrite download_phase_run. cbv zeta.
      match goal with |- context [download_to_zips env ?dl ?wd] =>
        pose proof (download_to_zips_mirrored env dl wd) as (a & Ha & Pa);
        destruct (download_to_zips env dl wd) as [[u'|e|] w2]
      end; cbn [fst snd] in *; exists a; unfold snapshot in *; cbn in *;
        rewrite Ha, Pa; split; congruence.
    + exists []. unfold snapshot in *. cbn. rewrite !app_nil_r.
      split; congruence.
    + exists []. unfold snapshot in *. cbn. rewrite !app_nil_r.
      split; congruence.
  - exists []. unfold snapshot in *. cbn. rewrite !app_nil_r.
    split; congruence.
  - exists []. unfold snapshot in *. cbn. rewrite !app_nil_r.
    split; congruence.
Qed.

(** X20.  The archives of a job started through [start_download] are where
    [download_file] looks for them: whatever happens in the job, every
    name it reports in [zip_files] is the name of an archive it created
    at [downloads/<job_id>/<name>], and that is the file [download_file]
    serves for the name while the session carries that job. *)
Theorem started_job_archives_are_served (env : Env) (r : Http.Request)
    (job : string) (srv : Server) (started : UserSession) (name : string) :
  snd (Http.start_download r job srv) = Some started ->
  In name (zip_files (snapshot (snd (process_download env
                                       (initial_world started))))) ->
  exists z,
    In z (zips (snd (process_download env (initial_world started))))
    /\ zip_path z = path_join (path_join "downloads" job) name
    /\ forall srv' sid s,
         Http.find_session r srv' = Some (sid, s) ->
         job_id s = job ->
         path_exists (disk srv') (zip_path z) = true ->
         Http.download_file r name srv'
         = Http.FileResponse (zip_path z) name "application/zip".
Proof.
  intros Hs Hin.
  assert (job_id started = job /\ zip_files (progress started) = []) as [Hj Hz].
  { unfold Http.start_download in Hs.
    destruct (Http.find_session r srv) as [[sid s]|]; [|discriminate].
    destruct (token s); [|discriminate].
    cbn in Hs. injection Hs as <-. now split. }
  destruct (process_download_mirrored env (initial_world started))
    as (a & Ha & Pa).
  set (w' := snd (process_download env (initial_world started))) in *.
  unfold snapshot in *. cbn in Ha, Pa. rewrite Hz in Ha. cbn in Ha.
  rewrite Hj in Pa. rewrite Ha in Hin.
  assert (In (path_join (path_join "downloads" job) name)
             (map zip_path (zips w'))) as Hp.
  { rewrite Pa. apply in_map_iff. now exists name. }
  apply in_map_iff in Hp as (z & Hzp & Hzin).
  exists z. split; [exact Hzin|]. split; [exact Hzp|].
  intros srv' sid s F J E. unfold Http.download_file.
  rewrite F, J, <- Hzp, E. reflexivity.
Qed.

Lemma started_job_archives_are_served_witness :
  exists z,
    In z (zips (snd (process_download mixed_env
                       (initial_world (started_session "job")))))
    /\ zip_path z = "downloads/job/drive_backup_001.zip".
Proof.
  destruct (started_job_archives_are_served mixed_env (cookie_request "s")
              "job"
              (auth_callback "s" (start_login 0 "s" "state" fresh_server))
              (started_session "job") "drive_backup_001.zip")
    as (z & Hin & Hp & _).
  - reflexivity.
  - vm_compute. left. reflexivity.
  - exists z. split; [exact Hin|exact Hp].
Defined.
